(** * filen-sdk-go: path resolution and key derivation

    A shallow embedding of [filen/cloud.go] and [filen/crypto/other.go].

    Go strings are byte strings: they are modelled by [string] (a list of
    [ascii], one per byte), byte slices by [list byte], Go's [int] by [Z],
    a [time.Time] by its seconds since the epoch.  Every Go package the two
    files call into has a module of the same name below; functions keep
    their Go names.  A Go function returning [(v, err)] returns [result V]:
    [Err e] stands for the Go return [(zero values / nil ..., e)], [Ok v]
    for [(v, nil)].  Functions that talk to the remote service run in the
    monad [M] over the [World]: the drive, the transport, the requests
    sent, the random source and the clock. *)

From Stdlib Require Import ZArith NArith List Bool Lia Arith.
From Stdlib.Strings Require Import String Ascii Byte.
From Stdlib Require Import DecimalString.
Import ListNotations.

Set Implicit Arguments.

(* ================================================================== *)
(** * Bytes and strings *)

Definition byte_of_Z (x : Z) : byte :=
  match Byte.of_N (Z.to_N (x mod 256)) with
  | Some b => b
  | None => x00
  end.

Definition Z_of_byte (b : byte) : Z := Z.of_N (Byte.to_N b).

(** The Go conversions [[]byte(s)] and [string(b)]. *)
Definition bytes_of_string (s : string) : list byte := list_byte_of_string s.
Definition string_of_bytes (b : list byte) : string := string_of_list_byte b.

Definition code (c : ascii) : N := N_of_ascii c.
Definition chr (n : N) : ascii := ascii_of_N (n mod 256).

(* ================================================================== *)
(** * Package [strings] *)

Module strings.

(** [strings.Split(s, sep)] for a one-byte separator: the pieces between
    the occurrences of [sep]; never the empty list. *)
Fixpoint Split (s : string) (sep : ascii) : list string :=
  match s with
  | EmptyString => [EmptyString]
  | String c s' =>
      if Ascii.eqb c sep then EmptyString :: Split s' sep
      else match Split s' sep with
           | piece :: pieces => String c piece :: pieces
           | [] => [String c EmptyString]
           end
  end.

(** [strings.Join(elems, sep)]. *)
Definition Join (elems : list string) (sep : string) : string :=
  String.concat sep elems.

End strings.

(** The separator of cloud paths. *)
Definition slash : ascii := "/"%char.

(* ================================================================== *)
(** * Package [encoding/hex] *)

Module hex.

Definition hextable : string := "0123456789abcdef".

Definition digit (n : N) : ascii :=
  match String.get (N.to_nat n) hextable with
  | Some c => c
  | None => "0"%char
  end.

(** [hex.EncodeToString]: two lower-case digits per byte. *)
Fixpoint EncodeToString (src : list byte) : string :=
  match src with
  | [] => EmptyString
  | b :: rest =>
      String (digit (N.shiftr (Byte.to_N b) 4))
        (String (digit (N.land (Byte.to_N b) 15)) (EncodeToString rest))
  end.

End hex.

(* ================================================================== *)
(** * Package [hash]: what [pbkdf2.Key] and [hmac.New] need of a hash *)

Record Hash := {
  Sum : list byte -> list byte;   (* Write everything, then Sum(nil) *)
  Size : nat;                     (* digest length in bytes *)
  BlockSize : nat                 (* block length in bytes *)
}.

(* ================================================================== *)
(** * Package [crypto/sha512] (FIPS 180-4) *)

Module sha512.
Local Open Scope Z_scope.

Definition w64 (x : Z) : Z := x mod 2 ^ 64.
Definition add64 (a b : Z) : Z := w64 (a + b).
Definition rotr (n x : Z) : Z :=
  Z.lor (Z.shiftr x n) (w64 (Z.shiftl x (64 - n))).

Definition K : list Z :=
  [ 0x428a2f98d728ae22; 0x7137449123ef65cd; 0xb5c0fbcfec4d3b2f; 0xe9b5dba58189dbbc;
    0x3956c25bf348b538; 0x59f111f1b605d019; 0x923f82a4af194f9b; 0xab1c5ed5da6d8118;
    0xd807aa98a3030242; 0x12835b0145706fbe; 0x243185be4ee4b28c; 0x550c7dc3d5ffb4e2;
    0x72be5d74f27b896f; 0x80deb1fe3b1696b1; 0x9bdc06a725c71235; 0xc19bf174cf692694;
    0xe49b69c19ef14ad2; 0xefbe4786384f25e3; 0x0fc19dc68b8cd5b5; 0x240ca1cc77ac9c65;
    0x2de92c6f592b0275; 0x4a7484aa6ea6e483; 0x5cb0a9dcbd41fbd4; 0x76f988da831153b5;
    0x983e5152ee66dfab; 0xa831c66d2db43210; 0xb00327c898fb213f; 0xbf597fc7beef0ee4;
    0xc6e00bf33da88fc2; 0xd5a79147930aa725; 0x06ca6351e003826f; 0x142929670a0e6e70;
    0x27b70a8546d22ffc; 0x2e1b21385c26c926; 0x4d2c6dfc5ac42aed; 0x53380d139d95b3df;
    0x650a73548baf63de; 0x766a0abb3c77b2a8; 0x81c2c92e47edaee6; 0x92722c851482353b;
    0xa2bfe8a14cf10364; 0xa81a664bbc423001; 0xc24b8b70d0f89791; 0xc76c51a30654be30;
    0xd192e819d6ef5218; 0xd69906245565a910; 0xf40e35855771202a; 0x106aa07032bbd1b8;
    0x19a4c116b8d2d0c8; 0x1e376c085141ab53; 0x2748774cdf8eeb99; 0x34b0bcb5e19b48a8;
    0x391c0cb3c5c95a63; 0x4ed8aa4ae3418acb; 0x5b9cca4f7763e373; 0x682e6ff3d6b2b8a3;
    0x748f82ee5defb2fc; 0x78a5636f43172f60; 0x84c87814a1f0ab72; 0x8cc702081a6439ec;
    0x90befffa23631e28; 0xa4506cebde82bde9; 0xbef9a3f7b2c67915; 0xc67178f2e372532b;
    0xca273eceea26619c; 0xd186b8c721c0c207; 0xeada7dd6cde0eb1e; 0xf57d4f7fee6ed178;
    0x06f067aa72176fba; 0x0a637dc5a2c898a6; 0x113f9804bef90dae; 0x1b710b35131c471b;
    0x28db77f523047d84; 0x32caab7b40c72493; 0x3c9ebe0a15c9bebc; 0x431d67c49c100d4c;
    0x4cc5d4becb3e42b6; 0x597f299cfc657e2a; 0x5fcb6fab3ad6faec; 0x6c44198c4a475817 ].

(** The eight working variables / the chaining value. *)
Record digest := Digest { h0 : Z; h1 : Z; h2 : Z; h3 : Z; h4 : Z; h5 : Z; h6 : Z; h7 : Z }.

Definition init : digest :=
  Digest 0x6a09e667f3bcc908 0xbb67ae8584caa73b 0x3c6ef372fe94f82b 0xa54ff53a5f1d36f1
         0x510e527fade682d1 0x9b05688c2b3e6c1f 0x1f83d9abfb41bd6b 0x5be0cd19137e2179.

(** Big-endian 64-bit word of (at most) eight bytes. *)
Definition be_word (bs : list byte) : Z :=
  fold_left (fun acc b => acc * 256 + Z_of_byte b) bs 0.

Definition be_bytes (n : nat) (x : Z) : list byte :=
  map (fun i => byte_of_Z (Z.shiftr x (8 * Z.of_nat i))) (rev (seq 0 n)).

Fixpoint words (n : nat) (bs : list byte) : list Z :=
  match n with
  | O => []
  | S n' => be_word (firstn 8 bs) :: words n' (skipn 8 bs)
  end.

(** The message schedule: [win] holds the last sixteen words, oldest
    first; [n] further words are produced. *)
Fixpoint schedule (n : nat) (win : list Z) : list Z :=
  match n with
  | O => []
  | S n' =>
      let v1 := nth 14 win 0 in
      let t1 := Z.lxor (Z.lxor (rotr 19 v1) (rotr 61 v1)) (Z.shiftr v1 6) in
      let v2 := nth 1 win 0 in
      let t2 := Z.lxor (Z.lxor (rotr 1 v2) (rotr 8 v2)) (Z.shiftr v2 7) in
      let w := add64 (add64 (add64 t1 (nth 9 win 0)) t2) (nth 0 win 0) in
      w :: schedule n' (tl win ++ [w])
  end.

Definition round (s : digest) (kw : Z * Z) : digest :=
  let '(Digest a b c d e f g h) := s in
  let t1 := add64 (add64 (add64 (add64 h
              (Z.lxor (Z.lxor (rotr 14 e) (rotr 18 e)) (rotr 41 e)))
              (Z.lxor (Z.land e f) (Z.land (Z.lxor e (Z.ones 64)) g)))
              (fst kw)) (snd kw) in
  let t2 := add64 (Z.lxor (Z.lxor (rotr 28 a) (rotr 34 a)) (rotr 39 a))
                  (Z.lxor (Z.lxor (Z.land a b) (Z.land a c)) (Z.land b c)) in
  Digest (add64 t1 t2) a b c (add64 d t1) e f g.

Definition block (s : digest) (p : list byte) : digest :=
  let w16 := words 16 p in
  let w := w16 ++ schedule 64 w16 in
  let '(Digest a b c d e f g h) := fold_left round (combine K w) s in
  Digest (add64 (h0 s) a) (add64 (h1 s) b) (add64 (h2 s) c) (add64 (h3 s) d)
         (add64 (h4 s) e) (add64 (h5 s) f) (add64 (h6 s) g) (add64 (h7 s) h).

(** Padding: 0x80, zeros up to 112 mod 128, the bit length on 16 bytes. *)
Definition pad (msg : list byte) : list byte :=
  let len := Z.of_nat (List.length msg) in
  msg ++ [byte_of_Z 0x80]
      ++ repeat x00 (Z.to_nat ((111 - len) mod 128))
      ++ be_bytes 16 (8 * len).

Fixpoint blocks (n : nat) (s : digest) (bs : list byte) : digest :=
  match n with
  | O => s
  | S n' => blocks n' (block s (firstn 128 bs)) (skipn 128 bs)
  end.

Definition output (s : digest) : list byte :=
  be_bytes 8 (h0 s) ++ be_bytes 8 (h1 s) ++ be_bytes 8 (h2 s) ++ be_bytes 8 (h3 s)
  ++ be_bytes 8 (h4 s) ++ be_bytes 8 (h5 s) ++ be_bytes 8 (h6 s) ++ be_bytes 8 (h7 s).

Definition Sum512 (msg : list byte) : list byte :=
  let p := pad msg in
  output (blocks (List.length p / 128)%nat init p).

(** [sha512.New]. *)
Definition New : Hash := {| Sum := Sum512; Size := 64; BlockSize := 128 |}.

End sha512.

(* ================================================================== *)
(** * Package [crypto/hmac] (RFC 2104) *)

Module hmac.

Definition xor_byte (a b : byte) : byte :=
  byte_of_Z (Z.lxor (Z_of_byte a) (Z_of_byte b)).

(** The key as [hmac.New] prepares it: hashed when longer than a block,
    then filled with zeros to the block length. *)
Definition block_key (h : Hash) (key : list byte) : list byte :=
  let k := if Nat.ltb (BlockSize h) (List.length key) then Sum h key else key in
  k ++ repeat x00 (BlockSize h - List.length k).

(** [mac := hmac.New(h, key); mac.Write(msg); mac.Sum(nil)]. *)
Definition Sum_ (h : Hash) (key msg : list byte) : list byte :=
  let k := block_key h key in
  let ipad := map (xor_byte (byte_of_Z 0x36)) k in
  let opad := map (xor_byte (byte_of_Z 0x5c)) k in
  Sum h (opad ++ Sum h (ipad ++ msg)).

End hmac.

(* ================================================================== *)
(** * Package [golang.org/x/crypto/pbkdf2] *)

Module pbkdf2.
Local Open Scope Z_scope.

(** [for x := range U { T[x] ^= U[x] }], both of the hash's length. *)
Fixpoint xor_into (T U : list byte) : list byte :=
  match T, U with
  | t :: T', u :: U' => hmac.xor_byte t u :: xor_into T' U'
  | _, _ => T
  end.

(** One turn of the inner loop, on the pair (T, U). *)
Definition step (h : Hash) (password : list byte) (TU : list byte * list byte)
  : list byte * list byte :=
  let U' := hmac.Sum_ h password (snd TU) in
  (xor_into (fst TU) U', U').

(** The body of the outer loop: the block T_i. *)
Definition T_block (h : Hash) (password salt : list byte) (iter : Z) (i : Z)
  : list byte :=
  let U1 := hmac.Sum_ h password (salt ++ sha512.be_bytes 4 i) in
  fst (N.iter (Z.to_N (iter - 1)) (step h password) (U1, U1)).

(** [pbkdf2.Key(password, salt, iter, keyLen, h)], for [0 <= keyLen]. *)
Definition Key (password salt : list byte) (iter keyLen : Z) (h : Hash)
  : list byte :=
  let hashLen := Z.of_nat (Size h) in
  let numBlocks := (keyLen + hashLen - 1) / hashLen in
  let dk := flat_map (fun block => T_block h password salt iter (Z.of_nat block))
                     (seq 1 (Z.to_nat numBlocks)) in
  firstn (Z.to_nat keyLen) dk.

End pbkdf2.


(* ================================================================== *)
(** * Package [fmt] *)

Module fmt.

(** [fmt.Sprintf("%032x", b)] on a byte slice: the lower-case hex digits
    of [b], filled on the left up to a width of 32 columns. *)
Definition Sprintf_032x (b : list byte) : string :=
  let s := hex.EncodeToString b in
  string_of_list_ascii (repeat "0"%char (32 - String.length s)) ++ s.

End fmt.

(* ================================================================== *)
(** * Package [filen/crypto], file [other.go] *)

Module crypto.
Local Open Scope Z_scope.

(** Modelled from the spec: [RunSHA521] is not in [other.go]; after its
    name and section 4.1 of the spec it hashes its argument once with
    SHA-512. *)
Definition RunSHA521 (b : list byte) : list byte := Sum sha512.New b.

(** Modelled from the spec: [runSHA521] is not in [other.go]; by section
    4.1 of the spec the second half of the digest is hashed once more with
    SHA-512. *)
Definition runSHA521 (s : string) : list byte := RunSHA521 (bytes_of_string s).

Definition DeriveKeyFromPassword (password salt : string) (iterations bitLength : Z)
  : list byte :=
  pbkdf2.Key (bytes_of_string password) (bytes_of_string salt)
             iterations (Z.quot bitLength 8) sha512.New.

Definition GeneratePasswordAndMasterKey (rawPassword salt : string)
  : string * string :=
  let derivedKey :=
    hex.EncodeToString (DeriveKeyFromPassword rawPassword salt 200000 512) in
  let half := (String.length derivedKey / 2)%nat in
  let derivedMasterKey := substring 0 half derivedKey in
  let derivedPassword := substring half (String.length derivedKey - half) derivedKey in
  let derivedPassword := fmt.Sprintf_032x (runSHA521 derivedPassword) in
  (derivedMasterKey, derivedPassword).

End crypto.

(* ================================================================== *)
(** * Package [unicode/utf8] *)

Definition dquote : ascii := "034"%char.
Definition backslash : ascii := "092"%char.

Fixpoint drop (n : nat) (s : string) : string :=
  match n, s with
  | S n', String _ s' => drop n' s'
  | _, _ => s
  end.

Module utf8.
Local Open Scope N_scope.

Definition RuneError : N := 0xFFFD.

Definition between (lo hi : N) (c : ascii) : bool :=
  (lo <=? code c) && (code c <=? hi).

Definition low6 (c : ascii) : N := N.land (code c) 0x3F.

(** [utf8.DecodeRune]: the first rune of [s] and its width in bytes; an
    ill-formed sequence gives [(RuneError, 1)], the empty string
    [(RuneError, 0)]. *)
Definition DecodeRune (s : string) : N * nat :=
  match s with
  | EmptyString => (RuneError, 0%nat)
  | String c0 s0 =>
      let b0 := code c0 in
      if b0 <? 0x80 then (b0, 1%nat)
      else if b0 <? 0xC2 then (RuneError, 1%nat)
      else if b0 <? 0xE0 then
        match s0 with
        | String c1 _ =>
            if between 0x80 0xBF c1
            then (N.lor (N.shiftl (N.land b0 0x1F) 6) (low6 c1), 2%nat)
            else (RuneError, 1%nat)
        | _ => (RuneError, 1%nat)
        end
      else if b0 <? 0xF0 then
        let lo := if b0 =? 0xE0 then 0xA0 else 0x80 in
        let hi := if b0 =? 0xED then 0x9F else 0xBF in
        match s0 with
        | String c1 (String c2 _) =>
            if between lo hi c1 && between 0x80 0xBF c2
            then (N.lor (N.shiftl (N.land b0 0x0F) 12)
                    (N.lor (N.shiftl (low6 c1) 6) (low6 c2)), 3%nat)
            else (RuneError, 1%nat)
        | _ => (RuneError, 1%nat)
        end
      else if b0 <? 0xF5 then
        let lo := if b0 =? 0xF0 then 0x90 else 0x80 in
        let hi := if b0 =? 0xF4 then 0x8F else 0xBF in
        match s0 with
        | String c1 (String c2 (String c3 _)) =>
            if between lo hi c1 && between 0x80 0xBF c2 && between 0x80 0xBF c3
            then (N.lor (N.shiftl (N.land b0 0x07) 18)
                    (N.lor (N.shiftl (low6 c1) 12)
                       (N.lor (N.shiftl (low6 c2) 6) (low6 c3))), 4%nat)
            else (RuneError, 1%nat)
        | _ => (RuneError, 1%nat)
        end
      else (RuneError, 1%nat)
  end.

Definition tail6 (r : N) (k : N) : ascii :=
  chr (N.lor 0x80 (N.land (N.shiftr r (6 * k)) 0x3F)).

(** [utf8.EncodeRune] / [utf8.AppendRune]. *)
Definition EncodeRune (r : N) : string :=
  let r := if ((0xD800 <=? r) && (r <? 0xE000)) || (0x10FFFF <? r)
           then RuneError else r in
  if r <? 0x80 then String (chr r) EmptyString
  else if r <? 0x800 then
    String (chr (N.lor 0xC0 (N.shiftr r 6))) (String (tail6 r 0) EmptyString)
  else if r <? 0x10000 then
    String (chr (N.lor 0xE0 (N.shiftr r 12)))
      (String (tail6 r 1) (String (tail6 r 0) EmptyString))
  else
    String (chr (N.lor 0xF0 (N.shiftr r 18)))
      (String (tail6 r 2) (String (tail6 r 1) (String (tail6 r 0) EmptyString))).

End utf8.

(* ================================================================== *)
(** * Package [encoding/json] *)

Module json.
Local Open Scope string_scope.

(** The two kinds of error [json.Unmarshal] returns for a struct
    target; messages and offsets are left out. *)
Inductive Error :=
| SyntaxError
| UnmarshalTypeError (Value : string).

#[local] Unset Elimination Schemes.
Inductive value :=
| Null
| Bool (b : bool)
| Number (literal : string)
| Str (s : string)
| Array (elems : list value)
| Object (members : list (string * value)).
#[local] Set Elimination Schemes.

(** ** Scanning *)

Definition isSpace (c : ascii) : bool :=
  match code c with
  | 32%N | 9%N | 13%N | 10%N => true
  | _ => false
  end.

Fixpoint skipSpace (s : string) : string :=
  match s with
  | String c s' => if isSpace c then skipSpace s' else s
  | EmptyString => s
  end.

Definition isDigit (c : ascii) : bool := utf8.between 48 57 c.

Definition hexval (c : ascii) : option N :=
  let n := code c in
  if utf8.between 48 57 c then Some (n - 48)%N
  else if utf8.between 97 102 c then Some (n - 87)%N
  else if utf8.between 65 70 c then Some (n - 55)%N
  else None.

(** [getu4]: the code unit of a leading [\uXXXX], if there is one. *)
Definition getu4 (s : string) : option N :=
  match s with
  | String b (String u (String c1 (String c2 (String c3 (String c4 _))))) =>
      if Ascii.eqb b backslash && Ascii.eqb u "u"%char then
        match hexval c1, hexval c2, hexval c3, hexval c4 with
        | Some d1, Some d2, Some d3, Some d4 =>
            Some (((d1 * 16 + d2) * 16 + d3) * 16 + d4)%N
        | _, _, _, _ => None
        end
      else None
  | _ => None
  end.

Definition isSurrogate (r : N) : bool := ((0xD800 <=? r) && (r <? 0xE000))%N.

(** [utf16.DecodeRune]. *)
Definition utf16_DecodeRune (r1 : N) (r2 : option N) : N :=
  match r2 with
  | Some r2 =>
      if ((0xD800 <=? r1) && (r1 <? 0xDC00) && (0xDC00 <=? r2) && (r2 <? 0xE000))%N
      then (N.lor (N.shiftl (r1 - 0xD800) 10) (r2 - 0xDC00) + 0x10000)%N
      else utf8.RuneError
  | None => utf8.RuneError
  end.

Definition simpleEscape (c : ascii) : option ascii :=
  match code c with
  | 34%N => Some dquote
  | 92%N => Some backslash
  | 47%N => Some "/"%char
  | 98%N => Some "008"%char
  | 102%N => Some "012"%char
  | 110%N => Some "010"%char
  | 114%N => Some "013"%char
  | 116%N => Some "009"%char
  | _ => None
  end.

Definition prepend (p : string) (r : option (string * string))
  : option (string * string) :=
  match r with
  | Some (out, rest) => Some (p ++ out, rest)
  | None => None
  end.

(** The body of a string literal, from just after the opening quote:
    the decoded text ([unquote]: escapes resolved, ill-formed UTF-8
    replaced by U+FFFD) and the input after the closing quote.  [None]
    where the scanner rejects the literal. *)
Fixpoint unquote (fuel : nat) (s : string) : option (string * string) :=
  match fuel with
  | O => None
  | S fuel' =>
      match s with
      | EmptyString => None
      | String c rest =>
          if Ascii.eqb c dquote then Some (EmptyString, rest)
          else if Ascii.eqb c backslash then
            match rest with
            | EmptyString => None
            | String e rest' =>
                match simpleEscape e with
                | Some ch => prepend (String ch EmptyString) (unquote fuel' rest')
                | None =>
                    match getu4 s with
                    | None => None
                    | Some rr =>
                        if isSurrogate rr then
                          let dec := utf16_DecodeRune rr (getu4 (drop 6 s)) in
                          if N.eqb dec utf8.RuneError
                          then prepend (utf8.EncodeRune utf8.RuneError)
                                       (unquote fuel' (drop 6 s))
                          else prepend (utf8.EncodeRune dec)
                                       (unquote fuel' (drop 12 s))
                        else prepend (utf8.EncodeRune rr) (unquote fuel' (drop 6 s))
                    end
                end
            end
          else if (code c <? 32)%N then None
          else if (code c <? 128)%N then
            prepend (String c EmptyString) (unquote fuel' rest)
          else
            let (r, size) := utf8.DecodeRune s in
            prepend (utf8.EncodeRune r) (unquote fuel' (drop size s))
      end
  end.

Fixpoint spanDigits (s : string) : string * string :=
  match s with
  | String c s' =>
      if isDigit c then let (d, r) := spanDigits s' in (String c d, r)
      else (EmptyString, s)
  | EmptyString => (EmptyString, s)
  end.

(** One or more digits. *)
Definition digits1 (s : string) : option (string * string) :=
  match spanDigits s with
  | (EmptyString, _) => None
  | (d, r) => Some (d, r)
  end.

Definition scanSign (s : string) : string * string :=
  match s with
  | String c s' =>
      if Ascii.eqb c "-"%char || Ascii.eqb c "+"%char
      then (String c EmptyString, s') else (EmptyString, s)
  | EmptyString => (EmptyString, s)
  end.

Definition scanInt (s : string) : option (string * string) :=
  match s with
  | String c s' =>
      if Ascii.eqb c "0"%char then Some (String c EmptyString, s')
      else digits1 s
  | EmptyString => None
  end.

Definition scanFrac (s : string) : option (string * string) :=
  match s with
  | String c s' =>
      if Ascii.eqb c "."%char then prepend (String c EmptyString) (digits1 s')
      else Some (EmptyString, s)
  | EmptyString => Some (EmptyString, s)
  end.

Definition scanExp (s : string) : option (string * string) :=
  match s with
  | String c s' =>
      if Ascii.eqb c "e"%char || Ascii.eqb c "E"%char then
        let (sign, s'') := scanSign s' in
        prepend (String c sign) (digits1 s'')
      else Some (EmptyString, s)
  | EmptyString => Some (EmptyString, s)
  end.

(** A number literal: an optional minus sign; 0, or a non-zero digit and
    further digits; an optional fraction (a point and digits); an optional
    exponent (e or E, an optional sign, digits). *)
Definition scanNumber (s : string) : option (string * string) :=
  let (minus, s1) :=
    match s with
    | String c s' =>
        if Ascii.eqb c "-"%char then (String c EmptyString, s') else (EmptyString, s)
    | EmptyString => (EmptyString, s)
    end in
  match scanInt s1 with
  | None => None
  | Some (i, s2) =>
      match scanFrac s2 with
      | None => None
      | Some (f, s3) =>
          match scanExp s3 with
          | None => None
          | Some (e, s4) => Some (minus ++ i ++ f ++ e, s4)
          end
      end
  end.

Definition expect (word : string) (v : value) (s : string)
  : option (value * string) :=
  if String.prefix word s then Some (v, drop (String.length word) s) else None.

Definition maxNestingDepth : N := 10000.

(** ** Parsing *)

(** [parseValue fuel depth s] reads one value at the head of [s] (no
    leading space); [depth] is the number of enclosing arrays and objects. *)
Fixpoint parseValue (fuel : nat) (depth : N) (s : string) {struct fuel}
  : option (value * string) :=
  match fuel with
  | O => None
  | S fuel' =>
      match s with
      | EmptyString => None
      | String c s' =>
          if Ascii.eqb c "{"%char then
            if (maxNestingDepth <? depth + 1)%N then None else
            match skipSpace s' with
            | String c1 s1 =>
                if Ascii.eqb c1 "}"%char then Some (Object [], s1)
                else match parseMembers fuel' (depth + 1) (String c1 s1) with
                     | Some (ms, r) => Some (Object ms, r)
                     | None => None
                     end
            | EmptyString => None
            end
          else if Ascii.eqb c "["%char then
            if (maxNestingDepth <? depth + 1)%N then None else
            match skipSpace s' with
            | String c1 s1 =>
                if Ascii.eqb c1 "]"%char then Some (Array [], s1)
                else match parseElems fuel' (depth + 1) (String c1 s1) with
                     | Some (vs, r) => Some (Array vs, r)
                     | None => None
                     end
            | EmptyString => None
            end
          else if Ascii.eqb c dquote then
            match unquote (S (String.length s')) s' with
            | Some (t, r) => Some (Str t, r)
            | None => None
            end
          else if Ascii.eqb c "-"%char || isDigit c then
            match scanNumber s with
            | Some (lit, r) => Some (Number lit, r)
            | None => None
            end
          else if Ascii.eqb c "t"%char then expect "true" (Bool true) s
          else if Ascii.eqb c "f"%char then expect "false" (Bool false) s
          else if Ascii.eqb c "n"%char then expect "null" Null s
          else None
      end
  end

(** The elements of an array, from the first one to the closing bracket. *)
with parseElems (fuel : nat) (depth : N) (s : string) {struct fuel}
  : option (list value * string) :=
  match fuel with
  | O => None
  | S fuel' =>
      match parseValue fuel' depth s with
      | None => None
      | Some (v, r) =>
          match skipSpace r with
          | String c r' =>
              if Ascii.eqb c ","%char then
                match parseElems fuel' depth (skipSpace r') with
                | Some (vs, r'') => Some (v :: vs, r'')
                | None => None
                end
              else if Ascii.eqb c "]"%char then Some ([v], r')
              else None
          | EmptyString => None
          end
      end
  end

(** The members of an object, from the first key to the closing brace. *)
with parseMembers (fuel : nat) (depth : N) (s : string) {struct fuel}
  : option (list (string * value) * string) :=
  match fuel with
  | O => None
  | S fuel' =>
      match s with
      | String q s' =>
          if Ascii.eqb q dquote then
            match unquote (S (String.length s')) s' with
            | None => None
            | Some (key, r) =>
                match skipSpace r with
                | String c r' =>
                    if Ascii.eqb c ":"%char then
                      match parseValue fuel' depth (skipSpace r') with
                      | None => None
                      | Some (v, r1) =>
                          match skipSpace r1 with
                          | String c1 r2 =>
                              if Ascii.eqb c1 ","%char then
                                match parseMembers fuel' depth (skipSpace r2) with
                                | Some (ms, r3) => Some ((key, v) :: ms, r3)
                                | None => None
                                end
                              else if Ascii.eqb c1 "}"%char then Some ([(key, v)], r2)
                              else None
                          | EmptyString => None
                          end
                      end
                    else None
                | EmptyString => None
                end
            end
          else None
      | EmptyString => None
      end
  end.

(** [checkValid] and the scan of the whole input: one value, white space
    around it and nothing else. *)
Definition parse (data : string) : option value :=
  match parseValue (2 * String.length data + 2) 0 (skipSpace data) with
  | Some (v, r) =>
      match skipSpace r with
      | EmptyString => Some v
      | _ => None
      end
  | None => None
  end.

(** ** Decoding into a struct *)

(** The struct targets of [cloud.go] have string and int fields only. *)
Inductive kind := KString | KInt.

Inductive field_value :=
| VString (s : string)
| VInt (n : Z).

Definition zeroValue (k : kind) : field_value :=
  match k with
  | KString => VString EmptyString
  | KInt => VInt 0
  end.

Definition toUpper (c : ascii) : ascii :=
  if utf8.between 97 122 c then chr (code c - 32) else c.

(** [foldName]: ASCII letters to upper case; the two other runes whose
    simple case folding meets ASCII, U+017F (long s) and U+212A (Kelvin
    sign), to [S] and [K]. *)
Fixpoint foldName (s : string) : string :=
  match s with
  | String c1 (String c2 (String c3 s3 as s2) as s1) =>
      if ((code c1 =? 0xE2) && (code c2 =? 0x84) && (code c3 =? 0xAA))%N
      then String "K"%char (foldName s3)
      else if ((code c1 =? 0xC5) && (code c2 =? 0xBF))%N
      then String "S"%char (foldName s2)
      else String (toUpper c1) (foldName s1)
  | String c1 (String c2 s2 as s1) =>
      if ((code c1 =? 0xC5) && (code c2 =? 0xBF))%N
      then String "S"%char (foldName s2)
      else String (toUpper c1) (foldName s1)
  | String c1 s1 => String (toUpper c1) (foldName s1)
  | EmptyString => EmptyString
  end.

(** A key selects the field of that name, compared up to case folding. *)
Definition matches (key name : string) : bool :=
  String.eqb key name || String.eqb (foldName key) (foldName name).

Fixpoint digitsValue (acc : Z) (s : string) : Z :=
  match s with
  | String c s' => digitsValue (acc * 10 + Z.of_N (code c - 48)) s'
  | EmptyString => acc
  end.

Fixpoint allDigits (s : string) : bool :=
  match s with
  | String c s' => isDigit c && allDigits s'
  | EmptyString => true
  end.

(** [strconv.ParseInt(lit, 10, 64)] on a number literal, with the range
    check of a 64-bit [int]. *)
Definition ParseInt (lit : string) : option Z :=
  let (neg, ds) :=
    match lit with
    | String c s' => if Ascii.eqb c "-"%char then (true, s') else (false, lit)
    | EmptyString => (false, lit)
    end in
  if allDigits ds && negb (String.eqb ds EmptyString) then
    let n := if neg then (- digitsValue 0 ds)%Z else digitsValue 0 ds in
    if ((- 2 ^ 63 <=? n) && (n <? 2 ^ 63))%Z then Some n else None
  else None.

(** [literalStore] and the type checks of [array] and [object]: the new
    content of a field and the error to save, if any. *)
Definition store (k : kind) (old : field_value) (v : value)
  : field_value * option Error :=
  match v, k with
  | Null, _ => (old, None)
  | Str s, KString => (VString s, None)
  | Str _, KInt => (old, Some (UnmarshalTypeError "string"))
  | Number lit, KInt =>
      match ParseInt lit with
      | Some n => (VInt n, None)
      | None => (old, Some (UnmarshalTypeError ("number " ++ lit)))
      end
  | Number _, KString => (old, Some (UnmarshalTypeError "number"))
  | Bool _, _ => (old, Some (UnmarshalTypeError "bool"))
  | Array _, _ => (old, Some (UnmarshalTypeError "array"))
  | Object _, _ => (old, Some (UnmarshalTypeError "object"))
  end.

(** The fields of the target with their current content. *)
Definition target := list (string * kind * field_value).

Fixpoint storeMember (t : target) (key : string) (v : value)
  : target * option Error :=
  match t with
  | [] => ([], None)
  | (name, k, old) :: t' =>
      if matches key name then
        let (new, e) := store k old v in ((name, k, new) :: t', e)
      else
        let (t'', e) := storeMember t' key v in ((name, k, old) :: t'', e)
  end.

(** [saveError] keeps the first error. *)
Definition saveError (saved e : option Error) : option Error :=
  match saved with
  | Some _ => saved
  | None => e
  end.

Fixpoint storeMembers (t : target) (saved : option Error)
         (ms : list (string * value)) : target * option Error :=
  match ms with
  | [] => (t, saved)
  | (key, v) :: ms' =>
      let (t', e) := storeMember t key v in
      storeMembers t' (saveError saved e) ms'
  end.

(** [json.Unmarshal(data, &t)] for a struct [t] that holds zero values:
    the struct afterwards and the error returned. *)
Definition Unmarshal (data : string) (fields : list (string * kind))
  : target * option Error :=
  let t := map (fun f => (fst f, snd f, zeroValue (snd f))) fields in
  match parse data with
  | None => (t, Some SyntaxError)
  | Some (Object ms) => storeMembers t None ms
  | Some Null => (t, None)
  | Some (Bool _) => (t, Some (UnmarshalTypeError "bool"))
  | Some (Number _) => (t, Some (UnmarshalTypeError "number"))
  | Some (Str _) => (t, Some (UnmarshalTypeError "string"))
  | Some (Array _) => (t, Some (UnmarshalTypeError "array"))
  end.

Fixpoint getString (t : target) (name : string) : string :=
  match t with
  | (n, _, VString s) :: t' => if String.eqb n name then s else getString t' name
  | _ :: t' => getString t' name
  | [] => EmptyString
  end.

Fixpoint getInt (t : target) (name : string) : Z :=
  match t with
  | (n, _, VInt z) :: t' => if String.eqb n name then z else getInt t' name
  | _ :: t' => getInt t' name
  | [] => 0%Z
  end.

(** ** Encoding a string *)

Definition u00 (c : ascii) : string :=
  String backslash ("u00" ++ String (hex.digit (N.shiftr (code c) 4))
                                (String (hex.digit (N.land (code c) 15)) EmptyString)).

(** What [appendString], with HTML escaping, writes for one byte below
    0x80. *)
Definition escapeByte (c : ascii) : string :=
  if Ascii.eqb c dquote || Ascii.eqb c backslash
  then String backslash (String c EmptyString)
  else match code c with
       | 8%N => String backslash "b"
       | 12%N => String backslash "f"
       | 10%N => String backslash "n"
       | 13%N => String backslash "r"
       | 9%N => String backslash "t"
       | 60%N | 62%N | 38%N => u00 c
       | n => if (n <? 32)%N then u00 c else String c EmptyString
       end.

(** [appendString] with HTML escaping, without the surrounding quotes. *)
Fixpoint escape (fuel : nat) (s : string) : string :=
  match fuel with
  | O => EmptyString
  | S fuel' =>
      match s with
      | EmptyString => EmptyString
      | String c rest =>
          if (code c <? 128)%N then escapeByte c ++ escape fuel' rest
          else
            let (r, size) := utf8.DecodeRune s in
            if (r =? utf8.RuneError)%N && Nat.eqb size 1
            then String backslash "ufffd" ++ escape fuel' (drop 1 s)
            else if (r =? 0x2028)%N then String backslash "u2028" ++ escape fuel' (drop size s)
            else if (r =? 0x2029)%N then String backslash "u2029" ++ escape fuel' (drop size s)
            else substring 0 size s ++ escape fuel' (drop size s)
      end
  end.

Definition quote (s : string) : string :=
  String dquote (escape (String.length s) s ++ String dquote EmptyString).

End json.

(* ================================================================== *)
(** * Errors and results *)

(** The Go [error] values that reach [cloud.go]. *)
Inductive error :=
| TransportError (msg : string)   (* a failed call of the remote session *)
| EncryptionFailed (msg : string) (* [crypto.EncryptMetadata] *)
| NoMatchingKey                   (* [crypto.DecryptMetadataAllKeys] *)
| JsonError (e : json.Error)      (* [encoding/json], as returned *)
| errorString (msg : string).     (* [errors.New(msg)] *)

Inductive result (A : Type) :=
| Ok (a : A)
| Err (e : error).
Arguments Ok {A} a.
Arguments Err {A} e.

(* ================================================================== *)
(** * The remote session (package [client])

    The [client] package is not part of the two files.  Section 6 of the
    spec gives its calls and the entries they return; the service keeps a
    flat set of entries, each naming its parent, and lists a directory's
    children in the order it stores them. *)

Module Upload.
(** Modelled from the spec: an upload entry of a directory's content
    (section 6); the fields are those [ReadDirectory] reads. *)
Record t := {
  UUID : string;
  Metadata : string;     (* ciphertext *)
  Timestamp : Z;
  Parent : string;
  Favorited : Z;
  Region : string;
  Bucket : string;
  Chunks : Z
}.
End Upload.

Module Folder.
(** Modelled from the spec: a folder entry of a directory's content
    (section 6); the fields are those [ReadDirectory] reads. *)
Record t := {
  UUID : string;
  Name : string;         (* ciphertext *)
  Parent : string;
  Timestamp : Z;
  Favorited : Z
}.
End Folder.

Module DirectoryContent.
(** Modelled from the spec: the answer of [GetDirectoryContent] (section 6). *)
Record t := {
  Uploads : list Upload.t;
  Folders : list Folder.t
}.
End DirectoryContent.

(** The calls of the remote session that [cloud.go] makes in the functions
    below, with their arguments. *)
Inductive Request :=
| ReqGetUserBaseFolder
| ReqGetDirectoryContent (uuid : string)
| ReqCreateDirectory (uuid metadataEncrypted nameHashed parentUUID : string).

(** Everything outside the process: the remote drive, the transport (a
    script of the faults to come, one entry per request, none once it is
    used up), the requests issued so far, the random source and the clock. *)
Record World := {
  baseFolder : string;
  uploads : list Upload.t;
  folders : list Folder.t;
  faults : list (option error);
  requests : list Request;
  entropy : nat;
  clock : Z
}.

(** Computations that talk to the world and may fail. *)
Definition M (A : Type) : Type := World -> result A * World.

Definition ret {A} (a : A) : M A := fun w => (Ok a, w).
Definition throw {A} (e : error) : M A := fun w => (Err e, w).
Definition bind {A B} (m : M A) (k : A -> M B) : M B :=
  fun w => match m w with
           | (Ok a, w') => k a w'
           | (Err e, w') => (Err e, w')
           end.
Definition lift {A} (r : result A) : M A := fun w => (r, w).

Declare Scope go_scope.
Delimit Scope go_scope with go.
Notation "x <- m ;; k" := (bind m (fun x => k))
  (at level 61, m at next level, right associativity) : go_scope.
Notation "' p <- m ;; k" := (bind m (fun x => match x with p => k end))
  (at level 61, p pattern, m at next level, right associativity) : go_scope.
Local Open Scope go_scope.

Module client.

(** The world once the request [r] has gone out: it is on record, and the
    transport has used up one entry of its script. *)
Definition sent (r : Request) (w : World) : World :=
  {| baseFolder := baseFolder w; uploads := uploads w;
     folders := folders w; faults := tl (faults w);
     requests := requests w ++ [r];
     entropy := entropy w; clock := clock w |}.

(** Modelled from the spec: one round trip (section 5: a call blocks on a
    network round trip and completes or fails; section 7: a transport
    error is opaque and is not retried).  The transport delivers the
    request or fails with the scripted error. *)
Definition roundTrip (r : Request) : M unit :=
  fun w =>
    match faults w with
    | Some e :: _ => (Err e, sent r w)
    | _ => (Ok tt, sent r w)
    end.

(** Modelled from the spec: [GetUserBaseFolder() -> {UUID}] fetches the
    identifier of the account's root directory (section 6). *)
Definition GetUserBaseFolder : M string :=
  _ <- roundTrip ReqGetUserBaseFolder ;;
  fun w => (Ok (baseFolder w), w).

Definition childFile (uuid : string) (u : Upload.t) : bool :=
  String.eqb (Upload.Parent u) uuid.
Definition childFolder (uuid : string) (f : Folder.t) : bool :=
  String.eqb (Folder.Parent f) uuid.

(** Modelled from the spec: [GetDirectoryContent(directoryUUID) ->
    {Uploads, Folders}], the immediate children of the directory (section
    6), in the order the service stores them. *)
Definition GetDirectoryContent (uuid : string) : M DirectoryContent.t :=
  _ <- roundTrip (ReqGetDirectoryContent uuid) ;;
  fun w => (Ok {| DirectoryContent.Uploads := filter (childFile uuid) (uploads w);
                  DirectoryContent.Folders := filter (childFolder uuid) (folders w) |},
            w).

(** Modelled from the spec: [CreateDirectory(newUUID, encryptedMetadata,
    nameHashToken, parentUUID) -> {UUID}] (section 6).  The service stores
    the new folder under the identifier it was sent, as a child of
    [parentUUID] after the folders it has, and answers with that
    identifier. *)
Definition CreateDirectory (uuid metadataEncrypted nameHashed parentUUID : string)
  : M string :=
  _ <- roundTrip (ReqCreateDirectory uuid metadataEncrypted nameHashed parentUUID) ;;
  fun w =>
    (Ok uuid,
     {| baseFolder := baseFolder w; uploads := uploads w;
        folders := folders w ++
                   [{| Folder.UUID := uuid; Folder.Name := metadataEncrypted;
                       Folder.Parent := parentUUID; Folder.Timestamp := clock w;
                       Folder.Favorited := 0 |}];
        faults := faults w; requests := requests w;
        entropy := entropy w; clock := clock w |}).

End client.

(* ================================================================== *)
(** * What [cloud.go] uses and the two files do not define *)

Definition key := list byte.

(** The metadata cipher of package [crypto], the time conversion of package
    [util] and the rendering of a random UUID are parameters of the
    development; [EncryptMetadata] and [uuidString] take the state of the
    random source. *)
Class Externals := {
  DecryptMetadata : string -> key -> option string;
  EncryptMetadata : nat -> string -> key -> result string;
  TimestampToTime : Z -> Z;
  uuidString : nat -> string
}.

Module uuid.
(** [uuid.New().String()]. *)
Definition New `{Externals} : M string :=
  fun w => (Ok (uuidString (entropy w)),
            {| baseFolder := baseFolder w; uploads := uploads w;
               folders := folders w; faults := faults w;
               requests := requests w;
               entropy := S (entropy w); clock := clock w |}).
End uuid.

Module time.
(** [time.Now()], as seconds since the epoch. *)
Definition Now : M Z := fun w => (Ok (clock w), w).
End time.

(** Modelled from the spec: [crypto.DecryptMetadataAllKeys] is not in
    [other.go]; by section 4.3 it tries [DecryptMetadata] with each key in
    order, returns the first success and fails with [NoMatchingKey] when
    every key fails. *)
Fixpoint DecryptMetadataAllKeys `{Externals} (metadata : string) (keys : list key)
  : result string :=
  match keys with
  | [] => Err NoMatchingKey
  | k :: keys' =>
      match DecryptMetadata metadata k with
      | Some plaintext => Ok plaintext
      | None => DecryptMetadataAllKeys metadata keys'
      end
  end.

(* ================================================================== *)
(** * Package [filen], file [cloud.go] *)

Module File.
Record t := {
  UUID : string;
  Name : string;
  Size : Z;
  MimeType : string;
  EncryptionKey : list byte;
  Created : Z;
  LastModified : Z;
  ParentUUID : string;
  Favorited : bool;
  Region : string;
  Bucket : string;
  Chunks : Z
}.
End File.

Module Directory.
Record t := {
  UUID : string;
  Name : string;
  ParentUUID : string;
  Color : string;
  Created : Z;
  Favorited : bool
}.
End Directory.

(** The session; its [client] is the [World]. *)
Record Filen := { MasterKeys : list key }.

(** Modelled from the spec: [CurrentMasterKey] is not in [cloud.go]; by
    section 3 the current master key is the last element of the key set. *)
Definition CurrentMasterKey (filen : Filen) : key := last (MasterKeys filen) [].

Section Cloud.
Context `{Externals}.
Variable filen : Filen.
Local Open Scope string_scope.

Definition GetBaseFolderUUID : M string :=
  userBaseFolder <- client.GetUserBaseFolder ;;
  ret userBaseFolder.

(** The anonymous struct that receives a file's metadata. *)
Definition fileMetadata : list (string * json.kind) :=
  [ ("name", json.KString); ("size", json.KInt); ("mime", json.KString);
    ("key", json.KString); ("lastModified", json.KInt) ].

(** The anonymous struct that receives a directory's name. *)
Definition directoryName : list (string * json.kind) := [ ("name", json.KString) ].

(** The body of the loop over [directoryContent.Uploads]. *)
Definition transformFile (file : Upload.t) : result File.t :=
  match DecryptMetadataAllKeys (Upload.Metadata file) (MasterKeys filen) with
  | Err err => Err err
  | Ok metadataStr =>
      match json.Unmarshal metadataStr fileMetadata with
      | (_, Some err) => Err (JsonError err)
      | (metadata, None) =>
          Ok {| File.UUID := Upload.UUID file;
                File.Name := json.getString metadata "name";
                File.Size := json.getInt metadata "size";
                File.MimeType := json.getString metadata "mime";
                File.EncryptionKey := bytes_of_string (json.getString metadata "key");
                File.Created := TimestampToTime (Upload.Timestamp file);
                File.LastModified := TimestampToTime (json.getInt metadata "lastModified");
                File.ParentUUID := Upload.Parent file;
                File.Favorited := Z.eqb (Upload.Favorited file) 1;
                File.Region := Upload.Region file;
                File.Bucket := Upload.Bucket file;
                File.Chunks := Upload.Chunks file |}
      end
  end.

(** The body of the loop over [directoryContent.Folders]. *)
Definition transformDirectory (directory : Folder.t) : result Directory.t :=
  match DecryptMetadataAllKeys (Folder.Name directory) (MasterKeys filen) with
  | Err err => Err err
  | Ok nameStr =>
      match json.Unmarshal nameStr directoryName with
      | (_, Some err) => Err (JsonError err)
      | (name, None) =>
          Ok {| Directory.UUID := Folder.UUID directory;
                Directory.Name := json.getString name "name";
                Directory.ParentUUID := Folder.Parent directory;
                Directory.Color := "<none>";
                Directory.Created := TimestampToTime (Folder.Timestamp directory);
                Directory.Favorited := Z.eqb (Folder.Favorited directory) 1 |}
      end
  end.

(** [for _, x := range entries { ...; out = append(out, y) }], leaving
    at the first error. *)
Fixpoint transform {A B} (body : A -> result B) (entries : list A) (out : list B)
  : result (list B) :=
  match entries with
  | [] => Ok out
  | x :: entries' =>
      match body x with
      | Err err => Err err
      | Ok y => transform body entries' (out ++ [y])
      end
  end.

Definition ReadDirectory (uuid : string) : M (list File.t * list Directory.t) :=
  directoryContent <- client.GetDirectoryContent uuid ;;
  files <- lift (transform transformFile (DirectoryContent.Uploads directoryContent) []) ;;
  directories <- lift (transform transformDirectory
                                 (DirectoryContent.Folders directoryContent) []) ;;
  ret (files, directories).

(** [for _, file := range files { if file.Name == segment {...} }]: the
    first file of that name. *)
Definition findFile (files : list File.t) (segment : string) : option File.t :=
  find (fun file => String.eqb (File.Name file) segment) files.

Definition findDirectory (directories : list Directory.t) (segment : string)
  : option Directory.t :=
  find (fun directory => String.eqb (Directory.Name directory) segment) directories.

(** The loop [SegmentsLoop] of [FindItem] over the segments that remain;
    [len] is [len(segments)] and [segmentIdx] the index of the head of
    [segments] in the whole path. *)
Fixpoint FindItem_loop (requireDirectory : bool) (len segmentIdx : nat)
         (segments : list string) (currentUUID : string)
  : M (option File.t * option Directory.t) :=
  match segments with
  | [] => throw (errorString "unreachable")
  | segment :: segments' =>
      if String.eqb segment EmptyString
      then FindItem_loop requireDirectory len (S segmentIdx) segments' currentUUID
      else
        ' (files, directories) <- ReadDirectory currentUUID ;;
        match (if requireDirectory then None else findFile files segment) with
        | Some file => ret (Some file, None)
        | None =>
            match findDirectory directories segment with
            | Some directory =>
                if Nat.eqb segmentIdx (len - 1)
                then ret (None, Some directory)
                else FindItem_loop requireDirectory len (S segmentIdx) segments'
                                   (Directory.UUID directory)
            | None => ret (None, None)
            end
        end
  end.

Definition FindItem (path : string) (requireDirectory : bool)
  : M (option File.t * option Directory.t) :=
  baseFolderUUID <- GetBaseFolderUUID ;;
  let segments := strings.Split path slash in
  if Nat.eqb (String.length (strings.Join segments EmptyString)) 0
  then throw (errorString ("no segments in path " ++ path))
  else FindItem_loop requireDirectory (List.length segments) 0 segments baseFolderUUID.

Definition FindItemUUID (path : string) (requireDirectory : bool) : M string :=
  if Nat.eqb (String.length (strings.Join (strings.Split path slash) EmptyString)) 0
  then
    baseFolderUUID <- GetBaseFolderUUID ;;
    ret baseFolderUUID
  else
    ' (file, directory) <- FindItem path requireDirectory ;;
    match file, directory with
    | Some file, _ => ret (File.UUID file)
    | None, Some directory => ret (Directory.UUID directory)
    | None, None => ret EmptyString
    end.

(** [json.Marshal] of [struct{Name string `json:"name"`}{name}]; it has
    no error case for this struct. *)
Definition nameMetadata (name : string) : string :=
  "{" ++ json.quote "name" ++ ":" ++ json.quote name ++ "}".

Definition Marshal_name (name : string) : result string := Ok (nameMetadata name).

Definition CreateDirectory (parentUUID name : string) : M Directory.t :=
  directoryUUID <- uuid.New ;;
  metadataStr <- lift (Marshal_name name) ;;
  metadataEncrypted <-
    (fun w => (EncryptMetadata (entropy w) metadataStr (CurrentMasterKey filen), w)) ;;
  let nameHashed := hex.EncodeToString (crypto.RunSHA521 (bytes_of_string name)) in
  response <- client.CreateDirectory directoryUUID metadataEncrypted nameHashed parentUUID ;;
  now <- time.Now ;;
  ret {| Directory.UUID := response;
         Directory.Name := name;
         Directory.ParentUUID := parentUUID;
         Directory.Color := EmptyString;
         Directory.Created := now;
         Directory.Favorited := false |}.

(** The loop [SegmentsLoop] of [FindDirectoryOrCreate]. *)
Fixpoint FindDirectoryOrCreate_loop (segments : list string) (currentUUID : string)
  : M string :=
  match segments with
  | [] => ret currentUUID
  | segment :: segments' =>
      if String.eqb segment EmptyString
      then FindDirectoryOrCreate_loop segments' currentUUID
      else
        ' (_, directories) <- ReadDirectory currentUUID ;;
        match findDirectory directories segment with
        | Some directory =>
            FindDirectoryOrCreate_loop segments' (Directory.UUID directory)
        | None =>
            directory <- CreateDirectory currentUUID segment ;;
            FindDirectoryOrCreate_loop segments' (Directory.UUID directory)
        end
  end.

Definition FindDirectoryOrCreate (path : string) : M string :=
  baseFolderUUID <- GetBaseFolderUUID ;;
  let segments := strings.Split path slash in
  if Nat.eqb (String.length (strings.Join segments EmptyString)) 0
  then ret baseFolderUUID
  else FindDirectoryOrCreate_loop segments baseFolderUUID.

End Cloud.

(* ================================================================== *)
(** * A small drive to run the code on *)

Module Fixture.
Local Open Scope string_scope.

(** A stand-in for the metadata cipher: the ciphertext is the plaintext
    tagged with the key it was made under. *)
Definition tag (k : key) : string := hex.EncodeToString k ++ ":".

#[export] Instance tagged : Externals := {|
  DecryptMetadata c k :=
    if String.prefix (tag k) c then Some (drop (String.length (tag k)) c) else None;
  EncryptMetadata _ p k := Ok (tag k ++ p);
  TimestampToTime t := t;
  uuidString n := "uuid-" ++ NilEmpty.string_of_uint (Nat.to_uint n)
|}.

Definition oldKey : key := [x01].
Definition newKey : key := [x02].
Definition session : Filen := {| MasterKeys := [oldKey; newKey] |}.

Definition nameJSON (name : string) : string := nameMetadata name.

Definition folder (k : key) (uuid name parent : string) : Folder.t :=
  {| Folder.UUID := uuid; Folder.Name := tag k ++ nameJSON name;
     Folder.Parent := parent; Folder.Timestamp := 1700000000; Folder.Favorited := 0 |}.

Definition upload (k : key) (uuid metadata parent : string) : Upload.t :=
  {| Upload.UUID := uuid; Upload.Metadata := tag k ++ metadata;
     Upload.Timestamp := 1700000000; Upload.Parent := parent;
     Upload.Favorited := 1; Upload.Region := "de-1"; Upload.Bucket := "filen-1";
     Upload.Chunks := 1 |}.



(** The drive
<<
    /a/        directory
    /a/b       file
    /a/b/      directory
    /notes     file
>>  *)
Definition drive : World :=
  {| baseFolder := "root";
     uploads := [ upload newKey "file-b" (nameJSON "b") "dir-a";
                  upload oldKey "file-notes" (nameJSON "notes") "root" ];
     folders := [ folder oldKey "dir-a" "a" "root";
                  folder newKey "dir-b" "b" "dir-a" ];
     faults := []; requests := []; entropy := 0; clock := 1700000100 |}.



(** A drive with nothing in it. *)
Definition emptyDrive : World :=
  {| baseFolder := "root"; uploads := []; folders := [];
     faults := []; requests := []; entropy := 0; clock := 1700000100 |}.

End Fixture.

(* ================================================================== *)
(** * Vocabulary of the statements *)

(** A path with zero non-empty segments: the empty path, or slashes only. *)
Definition zero_segments (path : string) : Prop :=
  Forall (fun segment => segment = EmptyString) (strings.Split path slash).

(** What the transport answers to the next request. *)
Definition delivered {A} (w : World) (answer : result A) : result A :=
  match faults w with
  | Some e :: _ => Err e
  | _ => answer
  end.

(** RFC 8018, section 5.2: [U h P S i n] is U_(n+1), the pseudorandom
    function applied n+1 times, and [F h P S i n] is the exclusive-or
    U_1 xor ... xor U_(n+1). *)
Fixpoint U (h : Hash) (P S : list byte) (i : Z) (n : nat) : list byte :=
  match n with
  | O => hmac.Sum_ h P (S ++ sha512.be_bytes 4 i)
  | Datatypes.S n' => hmac.Sum_ h P (U h P S i n')
  end.

Fixpoint F (h : Hash) (P S : list byte) (i : Z) (n : nat) : list byte :=
  match n with
  | O => U h P S i 0
  | Datatypes.S n' => pbkdf2.xor_into (F h P S i n') (U h P S i n)
  end.

(** The world after a draw from the random source. *)
Definition drawn (w : World) : World :=
  {| baseFolder := baseFolder w; uploads := uploads w; folders := folders w;
     faults := faults w; requests := requests w;
     entropy := S (entropy w); clock := clock w |}.

(** The world after the service has stored one more folder. *)
Definition stored (f : Folder.t) (w : World) : World :=
  {| baseFolder := baseFolder w; uploads := uploads w; folders := folders w ++ [f];
     faults := faults w; requests := requests w;
     entropy := entropy w; clock := clock w |}.



(** Names of bytes below 0x80. *)
Definition asciiName (name : string) : Prop :=
  Forall (fun c => (code c <? 128)%N = true) (list_ascii_of_string name).

(** The segments that name something. *)
Definition nonEmpty (segments : list string) : list string :=
  filter (fun segment => negb (String.eqb segment EmptyString)) segments.



Section Statements.
Context `{Externals}.
Variable filen : Filen.

(** What a delivered listing of [uuid] decodes to in the world [w]. *)
Definition listing (w : World) (uuid : string)
  : result (list File.t * list Directory.t) :=
  match transform (transformFile filen)
                  (filter (client.childFile uuid) (uploads w)) [] with
  | Err e => Err e
  | Ok files =>
      match transform (transformDirectory filen)
                      (filter (client.childFolder uuid) (folders w)) [] with
      | Err e => Err e
      | Ok directories => Ok (files, directories)
      end
  end.

(** [descends requireDirectory cur w segments cur' w']: walking down
    [segments] from the directory [cur] in the world [w], every non-empty
    segment names a directory of the current listing (and, when files are
    looked at, no file); the walk ends in the directory [cur'] and leaves
    the world [w']. *)
Inductive descends (requireDirectory : bool)
  : string -> World -> list string -> string -> World -> Prop :=
| descends_nil cur w : descends requireDirectory cur w [] cur w
| descends_skip cur w segments cur' w' :
    descends requireDirectory cur w segments cur' w' ->
    descends requireDirectory cur w (EmptyString :: segments) cur' w'
| descends_into cur w segment segments files directories w1 directory cur' w' :
    segment <> EmptyString ->
    ReadDirectory filen cur w = (Ok (files, directories), w1) ->
    (requireDirectory = false -> findFile files segment = None) ->
    findDirectory directories segment = Some directory ->
    descends requireDirectory (Directory.UUID directory) w1 segments cur' w' ->
    descends requireDirectory cur w (segment :: segments) cur' w'.

(** The folder entry that [CreateDirectory parentUUID name] has the service
    store in the world [w], given the ciphertext of the metadata. *)
Definition newFolder (parentUUID metadataEncrypted : string) (w : World) : Folder.t :=
  {| Folder.UUID := uuidString (entropy w); Folder.Name := metadataEncrypted;
     Folder.Parent := parentUUID; Folder.Timestamp := clock w; Folder.Favorited := 0 |}.

Definition createRequest (parentUUID name metadataEncrypted : string) (w : World) : Request :=
  ReqCreateDirectory (uuidString (entropy w)) metadataEncrypted
    (hex.EncodeToString (crypto.RunSHA521 (bytes_of_string name))) parentUUID.

(** A name that comes back from a listing as it went in: its metadata,
    encrypted under the current master key, decrypts under the key set, and
    the JSON text of the metadata decodes to the name. *)
Definition cipher_roundtrip (plaintext : string) : Prop :=
  forall r c, EncryptMetadata r plaintext (CurrentMasterKey filen) = Ok c ->
              DecryptMetadataAllKeys c (MasterKeys filen) = Ok plaintext.

Definition name_roundtrip (name : string) : Prop :=
  json.Unmarshal (nameMetadata name) directoryName
  = ([("name"%string, json.KString, json.VString name)], None).

Definition listable (name : string) : Prop :=
  cipher_roundtrip (nameMetadata name) /\ name_roundtrip name.

(** A folder entry that [ReadDirectory] can decode. *)
Definition decodable (f : Folder.t) : Prop :=
  exists d, transformDirectory filen f = Ok d.


End Statements.

(* ================================================================== *)
(** * Vocabulary of the further properties *)

(** The requests for the listing of a directory. *)
Definition is_listing (r : Request) : Prop :=
  match r with
  | ReqGetDirectoryContent _ => True
  | _ => False
  end.

(** The requests that create a directory. *)
Definition is_create (r : Request) : Prop :=
  match r with
  | ReqCreateDirectory _ _ _ _ => True
  | _ => False
  end.

(** [same_drive w w']: the drive, the random source and the clock of [w']
    are those of [w]. *)
Definition same_drive (w w' : World) : Prop :=
  baseFolder w' = baseFolder w /\ uploads w' = uploads w /\ folders w' = folders w /\
  entropy w' = entropy w /\ clock w' = clock w.

(** A digit of lower-case hexadecimal notation. *)
Definition isHexDigit (c : ascii) : bool :=
  utf8.between 48 57 c || utf8.between 97 102 c.

(** A string without the occurrences of a byte. *)
Fixpoint without (sep : ascii) (s : string) : string :=
  match s with
  | EmptyString => EmptyString
  | String c s' => if Ascii.eqb c sep then without sep s' else String c (without sep s')
  end.

(** Whether the last element of a split path is empty: the path ends in a
    slash (or is empty). *)
Definition endsEmpty (segments : list string) : bool :=
  String.eqb (last segments EmptyString) EmptyString.

(** The empty drive of the fixture behind a transport that loses the fifth
    request. *)
Definition flakyDrive : World :=
  {| baseFolder := "root"; uploads := []; folders := [];
     faults := [None; None; None; None; Some (TransportError "timeout")];
     requests := []; entropy := 0; clock := 1700000100 |}.

(** The drive of the fixture behind a transport that fails at once. *)
Definition offlineDrive : World :=
  {| baseFolder := baseFolder Fixture.drive; uploads := uploads Fixture.drive;
     folders := folders Fixture.drive;
     faults := [Some (TransportError "connection refused")];
     requests := []; entropy := 0; clock := 1700000100 |}.

(** The world once the transport has been repaired: no fault is to come. *)
Definition repaired (w : World) : World :=
  {| baseFolder := baseFolder w; uploads := uploads w; folders := folders w;
     faults := []; requests := requests w; entropy := entropy w; clock := clock w |}.

Section Walks.
Context `{Externals}.
Variable filen : Filen.

(** The walk of [FindItem] told by the non-empty segments alone:
    [names] are the segments still to resolve, and [open] says that the
    split path has an empty last element, so that no segment is at the
    last index. *)
Fixpoint resolve (requireDirectory : bool) (open : bool) (names : list string)
         (currentUUID : string) : M (option File.t * option Directory.t) :=
  match names with
  | [] => throw (errorString "unreachable")
  | name :: names' =>
      ' (files, directories) <- ReadDirectory filen currentUUID ;;
      match (if requireDirectory then None else findFile files name) with
      | Some file => ret (Some file, None)
      | None =>
          match findDirectory directories name with
          | Some directory =>
              match names', open with
              | [], false => ret (None, Some directory)
              | _, _ => resolve requireDirectory open names' (Directory.UUID directory)
              end
          | None => ret (None, None)
          end
      end
  end.

(** What [FindItem] may return for the split path [segments] on the drive
    of [w]: a file decoded from an upload of the drive and named like one
    of the non-empty segments; or a directory decoded from a folder of the
    drive and named like the last element, which is not empty. *)
Definition found_file (w : World) (segments : list string) (file : File.t) : Prop :=
  In (File.Name file) (nonEmpty segments) /\
  exists u, In u (uploads w) /\ transformFile filen u = Ok file.

Definition found_directory (w : World) (segments : list string) (directory : Directory.t)
  : Prop :=
  Directory.Name directory = last segments EmptyString /\
  Directory.Name directory <> EmptyString /\
  exists fo, In fo (folders w) /\ transformDirectory filen fo = Ok directory.

Definition sound (requireDirectory : bool) (w : World) (segments : list string)
           (found : option File.t * option Directory.t) : Prop :=
  match found with
  | (Some file, None) => requireDirectory = false /\ found_file w segments file
  | (None, Some directory) => found_directory w segments directory
  | (None, None) => True
  | (Some _, Some _) => False
  end.

End Walks.

(* ================================================================== *)
(** * Strings *)

Lemma length_append (s t : string) :
  String.length (s ++ t) = String.length s + String.length t.
Proof. induction s as [|c s IH]; simpl; [reflexivity | now rewrite IH]. Qed.

Lemma Join_empty_length (elems : list string) :
  String.length (strings.Join elems EmptyString) = 0 <->
  Forall (fun e => e = EmptyString) elems.
Proof.
  unfold strings.Join.
  induction elems as [|x elems IH].
  - simpl; split; auto.
  - destruct elems as [|y elems].
    + simpl; split.
      * intros Hx; constructor; [|constructor]. now destruct x.
      * intros Hx; inversion Hx; subst; reflexivity.
    + change (String.concat EmptyString (x :: y :: elems))
        with (x ++ EmptyString ++ String.concat EmptyString (y :: elems))%string.
      rewrite !length_append. change (String.length EmptyString) with 0. split.
      * intros Hlen. constructor.
        -- destruct x; [reflexivity | simpl in Hlen; discriminate].
        -- apply IH. lia.
      * intros Hall. inversion Hall as [|? ? Hx Hrest]; subst.
        apply IH in Hrest. rewrite Hrest. reflexivity.
Qed.

Lemma zero_segments_test (path : string) :
  zero_segments path <->
  Nat.eqb (String.length (strings.Join (strings.Split path slash) EmptyString)) 0 = true.
Proof.
  unfold zero_segments. rewrite Nat.eqb_eq. symmetry. apply Join_empty_length.
Qed.

Lemma Split_not_nil (s : string) (sep : ascii) : strings.Split s sep <> [].
Proof.
  destruct s as [|c s]; simpl; [discriminate|].
  destruct (Ascii.eqb c sep); [discriminate|].
  destruct (strings.Split s sep); discriminate.
Qed.

(** The paths without a segment are the runs of slashes. *)
Lemma zero_segments_slashes (path : string) :
  zero_segments path <->
  path = string_of_list_ascii (repeat slash (String.length path)).
Proof.
  unfold zero_segments. induction path as [|c path IH]; simpl.
  - split; auto.
  - destruct (Ascii.eqb_spec c slash) as [->|Hc].
    + split.
      * intros Hall. inversion Hall; subst. f_equal. now apply IH.
      * intros Heq. injection Heq as Heq. constructor; [reflexivity | now apply IH].
    + split.
      * intros Hall. destruct (strings.Split path slash); inversion Hall; discriminate.
      * intros Heq. injection Heq as Hc' _. congruence.
Qed.

(* ================================================================== *)
(** * The remote calls *)

Section Resolver.
Context `{Externals}.
Variable filen : Filen.

Lemma GetBaseFolderUUID_run (w : World) :
  GetBaseFolderUUID w =
  (delivered w (Ok (baseFolder w)), client.sent ReqGetUserBaseFolder w).
Proof.
  unfold GetBaseFolderUUID, client.GetUserBaseFolder, client.roundTrip, bind, ret, delivered.
  destruct (faults w) as [|[e|] rest]; reflexivity.
Qed.

Lemma ReadDirectory_run (uuid : string) (w : World) :
  ReadDirectory filen uuid w =
  (delivered w (listing filen w uuid), client.sent (ReqGetDirectoryContent uuid) w).
Proof.
  unfold ReadDirectory, client.GetDirectoryContent, client.roundTrip, bind, ret, lift,
    delivered, listing.
  destruct (faults w) as [|[e|] rest]; simpl;
    try reflexivity;
    destruct (transform (transformFile filen) _ []); try reflexivity;
    destruct (transform (transformDirectory filen) _ []); reflexivity.
Qed.

Lemma findFile_first (files : list File.t) (segment : string) (file : File.t) :
  In file files -> File.Name file = segment ->
  exists first, findFile files segment = Some first /\
                In first files /\ File.Name first = segment.
Proof.
  intros Hin Hname. unfold findFile.
  destruct (find _ files) as [first|] eqn:Hfind.
  - apply find_some in Hfind as [Hin' Heq]. apply String.eqb_eq in Heq. eauto.
  - apply find_none with (x := file) in Hfind; [|exact Hin].
    rewrite Hname, String.eqb_refl in Hfind. discriminate.
Qed.


(** ** The empty path *)

(** C9: on a path with zero non-empty segments [FindItemUUID] issues one
    request, the fetch of the root folder, and no listing request; its
    result is the answer to that fetch: the root directory's UUID, or the
    transport's error. *)
Theorem FindItemUUID_zero_segments (path : string) (requireDirectory : bool) (w : World) :
  zero_segments path ->
  fst (FindItemUUID filen path requireDirectory w) = delivered w (Ok (baseFolder w)) /\
  requests (snd (FindItemUUID filen path requireDirectory w))
    = requests w ++ [ReqGetUserBaseFolder] /\
  (faults w = [] -> fst (FindItemUUID filen path requireDirectory w) = Ok (baseFolder w)).
Proof.
  intros Hzero. apply zero_segments_test in Hzero.
  unfold FindItemUUID. rewrite Hzero.
  unfold bind. rewrite GetBaseFolderUUID_run.
  unfold delivered, ret.
  destruct (faults w) as [|[e|] rest]; simpl; repeat split; try reflexivity;
    intros; discriminate.
Qed.


(** ** The walk *)

Lemma FindItem_loop_descends (requireDirectory : bool) cur w pre cur' w' :
  descends filen requireDirectory cur w pre cur' w' ->
  forall len segmentIdx rest,
    segmentIdx + List.length pre + List.length rest = len ->
    rest <> [] ->
    FindItem_loop filen requireDirectory len segmentIdx (pre ++ rest) cur w =
    FindItem_loop filen requireDirectory len (segmentIdx + List.length pre) rest cur' w'.
Proof.
  induction 1 as [cur w | cur w segments cur' w' Hd IH
                  | cur w segment segments files directories w1 directory cur' w'
                      Hne Hread Hfile Hdir Hd IH];
    intros len segmentIdx rest Hlen Hrest.
  - simpl. now rewrite Nat.add_0_r.
  - simpl. rewrite IH by (simpl in Hlen; lia || assumption).
    f_equal. simpl. lia.
  - simpl. apply String.eqb_neq in Hne. rewrite Hne.
    unfold bind at 1. rewrite Hread.
    assert (Hf : (if requireDirectory then None else findFile files segment) = None)
      by (destruct requireDirectory; [reflexivity | now apply Hfile]).
    rewrite Hf, Hdir.
    assert (Hidx : Nat.eqb segmentIdx (len - 1) = false).
    { apply Nat.eqb_neq. destruct rest; [congruence|]. simpl in Hlen. lia. }
    rewrite Hidx, IH by (simpl in Hlen; lia || assumption).
    f_equal. simpl. lia.
Qed.


(** The scan of the files does not look at the position of the segment:
    with [requireDirectory] false, a file named like the segment ends the
    walk at any index. *)
Lemma FindItem_loop_file_any_index len segmentIdx segment rest cur w files directories w1 file :
  segment <> EmptyString ->
  ReadDirectory filen cur w = (Ok (files, directories), w1) ->
  findFile files segment = Some file ->
  FindItem_loop filen false len segmentIdx (segment :: rest) cur w
  = (Ok (Some file, None), w1).
Proof.
  intros Hne Hread Hfile. apply String.eqb_neq in Hne.
  cbn [FindItem_loop]. rewrite Hne. unfold bind. rewrite Hread, Hfile. reflexivity.
Qed.

End Resolver.

(** ** On the fixture *)

Section OnTheDrive.
Import Fixture.
Local Open Scope string_scope.

Lemma FindItemUUID_zero_segments_witness :
  fst (FindItemUUID session "//" false drive) = Ok "root" /\
  requests (snd (FindItemUUID session "//" false drive)) = [ReqGetUserBaseFolder].
Proof.
  destruct (@FindItemUUID_zero_segments tagged session "//" false drive)
    as (_ & Hreq & Hok).
  - unfold zero_segments. simpl. repeat constructor.
  - split; [apply Hok; reflexivity | exact Hreq].
Defined.



(** C1 on the code: in the path notes/x the segment notes is not the
    final one, and the root lists a file of that name and no directory of
    that name; [FindItem] returns that file, not (nil, nil). *)
Lemma FindItem_inner_segment_returns_file :
  strings.Split "notes/x" slash = ["notes"; "x"] /\
  (exists files directories file,
      listing session drive (baseFolder drive) = Ok (files, directories) /\
      findFile files "notes" = Some file /\
      findDirectory directories "notes" = None) /\
  (exists file,
      fst (FindItem session "notes/x" false drive) = Ok (Some file, None) /\
      File.UUID file = "file-notes" /\ File.Name file = "notes") /\
  fst (FindItem session "notes/x" false drive) <> Ok (None, None).
Proof.
  split; [reflexivity|]. split; [|split].
  - do 3 eexists. vm_compute. repeat split.
  - eexists. vm_compute. repeat split.
  - vm_compute. discriminate.
Qed.

(** A path that ends in a slash has an empty last element, which the loop
    skips: the directory found for the segment before it is not taken for
    the final one, and the loop runs out. *)
Example FindItem_trailing_slash :
  strings.Split "a/b/" slash = ["a"; "b"; EmptyString] /\
  fst (FindItem session "a/b/" true drive) = Err (errorString "unreachable").
Proof. split; vm_compute; reflexivity. Qed.


End OnTheDrive.

(* ================================================================== *)
(** * Listings *)

Section Listing.
Context `{Externals}.
Variable filen : Filen.

Lemma transform_out {A B} (body : A -> result B) (entries : list A) (out : list B) :
  transform body entries out =
  match transform body entries [] with
  | Ok r => Ok (out ++ r)
  | Err e => Err e
  end.
Proof.
  revert out. induction entries as [|x entries IH]; intros out; simpl.
  - now rewrite app_nil_r.
  - destruct (body x) as [y|e]; [|reflexivity].
    rewrite (IH (out ++ [y])), (IH [y]).
    destruct (transform body entries []); [|reflexivity].
    now rewrite <- app_assoc.
Qed.

Lemma transform_Forall2 {A B} (body : A -> result B) (entries : list A) (r : list B) :
  transform body entries [] = Ok r <-> Forall2 (fun x y => body x = Ok y) entries r.
Proof.
  revert r. induction entries as [|x entries IH]; intros r; simpl.
  - split.
    + intros [= <-]. constructor.
    + intros Hall. inversion Hall. reflexivity.
  - split.
    + destruct (body x) as [y|e] eqn:Hx; [|discriminate].
      rewrite transform_out.
      destruct (transform body entries []) as [r'|e]; [|discriminate].
      intros [= <-]. constructor; [exact Hx | now apply IH].
    + intros Hall. inversion Hall as [|? y ? r' Hx Hrest]; subst.
      rewrite Hx, transform_out. apply IH in Hrest. rewrite Hrest. reflexivity.
Qed.

Lemma transform_app {A B} (body : A -> result B) (l1 l2 : list A) (r1 r2 : list B) :
  transform body l1 [] = Ok r1 -> transform body l2 [] = Ok r2 ->
  transform body (l1 ++ l2) [] = Ok (r1 ++ r2).
Proof.
  rewrite !transform_Forall2. apply Forall2_app.
Qed.






Lemma transformFile_Ok (file : Upload.t) (f : File.t) :
  transformFile filen file = Ok f ->
  exists plaintext,
    DecryptMetadataAllKeys (Upload.Metadata file) (MasterKeys filen) = Ok plaintext /\
    snd (json.Unmarshal plaintext fileMetadata) = None /\
    File.UUID f = Upload.UUID file /\
    File.Name f = json.getString (fst (json.Unmarshal plaintext fileMetadata)) "name".
Proof.
  unfold transformFile.
  destruct (DecryptMetadataAllKeys _ _) as [plaintext|e]; [|discriminate].
  destruct (json.Unmarshal plaintext fileMetadata) as [t [e|]] eqn:Hu; [discriminate|].
  intros [= <-]. exists plaintext. rewrite Hu. auto.
Qed.

Lemma transformDirectory_Ok (directory : Folder.t) (d : Directory.t) :
  transformDirectory filen directory = Ok d ->
  exists plaintext,
    DecryptMetadataAllKeys (Folder.Name directory) (MasterKeys filen) = Ok plaintext /\
    snd (json.Unmarshal plaintext directoryName) = None /\
    Directory.UUID d = Folder.UUID directory /\
    Directory.Name d = json.getString (fst (json.Unmarshal plaintext directoryName)) "name".
Proof.
  unfold transformDirectory.
  destruct (DecryptMetadataAllKeys _ _) as [plaintext|e]; [|discriminate].
  destruct (json.Unmarshal plaintext directoryName) as [t [e|]] eqn:Hu; [discriminate|].
  intros [= <-]. exists plaintext. rewrite Hu. auto.
Qed.


(** ** What [json.Unmarshal] lets through *)









End Listing.

Section ListingOnTheDrive.
Import Fixture.
Local Open Scope string_scope.




End ListingOnTheDrive.

(* ================================================================== *)
(** * Key derivation and hashing *)

Section Crypto.
Local Open Scope string_scope.

Example sha512_abc :
  hex.EncodeToString (sha512.Sum512 (bytes_of_string "abc")) =
  "ddaf35a193617abacc417349ae20413112e6fa4e89a97ea20a9eeee64b55d39a2192992a274fc1a836ba3c23a3feebbd454d4423643ce80e2a9ac94fa54ca49f".
Proof. vm_compute. reflexivity. Qed.

Example hmac_sha512_fox :
  hex.EncodeToString
    (hmac.Sum_ sha512.New (bytes_of_string "key")
               (bytes_of_string "The quick brown fox jumps over the lazy dog")) =
  "b42af09057bac1e2d41708e48a902e09b5ff7f12ab428a4fe86653c73dd248fb82f948a549f7b791a5b41915ee4d1ec3935357e4e2317250d0372afa2ebeeb3a".
Proof. vm_compute. reflexivity. Qed.

Example pbkdf2_sha512_two_iterations :
  hex.EncodeToString (crypto.DeriveKeyFromPassword "password" "salt" 2 512) =
  "e1d9c16aa681708a45f5c7c4e215ceb66e011a2e9f0040713f18aefdb866d53cf76cab2868a39b9f7840edce4fef5a82be67335c77a6068e04112754f27ccf4e".
Proof. vm_compute. reflexivity. Qed.

Lemma be_bytes_length (n : nat) (x : Z) : List.length (sha512.be_bytes n x) = n.
Proof. unfold sha512.be_bytes. now rewrite length_map, length_rev, length_seq. Qed.

Lemma Sum512_length (msg : list byte) : List.length (sha512.Sum512 msg) = 64.
Proof.
  unfold sha512.Sum512, sha512.output.
  rewrite !length_app, !be_bytes_length. reflexivity.
Qed.

Lemma hmac_sha512_length (k msg : list byte) :
  List.length (hmac.Sum_ sha512.New k msg) = 64.
Proof. unfold hmac.Sum_. cbn [Sum sha512.New]. apply Sum512_length. Qed.

Lemma xor_into_length (T V : list byte) :
  List.length (pbkdf2.xor_into T V) = List.length T.
Proof.
  revert V. induction T as [|t T IH]; intros [|v V]; simpl; auto.
Qed.

Lemma EncodeToString_length (src : list byte) :
  String.length (hex.EncodeToString src) = 2 * List.length src.
Proof. induction src as [|b src IH]; simpl; [reflexivity | rewrite IH; lia]. Qed.

(** The loop of [pbkdf2.Key] computes the block of RFC 8018. *)
Lemma iter_step_RFC (h : Hash) (P S : list byte) (i : Z) (n : nat) :
  Nat.iter n (pbkdf2.step h P) (U h P S i 0, U h P S i 0) = (F h P S i n, U h P S i n).
Proof.
  induction n as [|n IH]; [reflexivity|].
  rewrite Nat.iter_succ, IH. reflexivity.
Qed.

Lemma T_block_RFC (h : Hash) (P S : list byte) (iter i : Z) :
  pbkdf2.T_block h P S iter i = F h P S i (Z.to_nat (iter - 1)).
Proof.
  unfold pbkdf2.T_block. rewrite N2Nat.inj_iter, Z_N_nat.
  change (hmac.Sum_ h P (S ++ sha512.be_bytes 4 i)) with (U h P S i 0).
  now rewrite iter_step_RFC.
Qed.

Lemma F_length (P S : list byte) (i : Z) (n : nat) :
  List.length (F sha512.New P S i n) = 64.
Proof.
  induction n as [|n IH]; cbn [F U].
  - apply hmac_sha512_length.
  - now rewrite xor_into_length.
Qed.





Lemma Sprintf_032x_wide (b : list byte) :
  16 <= List.length b -> fmt.Sprintf_032x b = hex.EncodeToString b.
Proof.
  intros Hb. unfold fmt.Sprintf_032x.
  replace (32 - String.length (hex.EncodeToString b)) with 0
    by (rewrite EncodeToString_length; lia).
  reflexivity.
Qed.


End Crypto.

(* ================================================================== *)
(** * Creating a directory *)

Section Creation.
Context `{Externals}.
Variable filen : Filen.
Local Open Scope string_scope.

Lemma CreateDirectory_run (parentUUID name : string) (w : World) :
  CreateDirectory filen parentUUID name w =
  match EncryptMetadata (S (entropy w)) (nameMetadata name) (CurrentMasterKey filen) with
  | Err e => (Err e, drawn w)
  | Ok c =>
      match faults w with
      | Some e :: _ =>
          (Err e, client.sent (createRequest parentUUID name c w) (drawn w))
      | _ =>
          (Ok {| Directory.UUID := uuidString (entropy w); Directory.Name := name;
                 Directory.ParentUUID := parentUUID; Directory.Color := EmptyString;
                 Directory.Created := clock w; Directory.Favorited := false |},
           stored (newFolder parentUUID c w)
                  (client.sent (createRequest parentUUID name c w) (drawn w)))
      end
  end.
Proof.
  destruct w as [base ups fds fts reqs ent clk].
  unfold CreateDirectory, bind, uuid.New, Marshal_name, lift, client.CreateDirectory,
    client.roundTrip, time.Now, ret, drawn, stored, newFolder, createRequest, client.sent.
  cbn [entropy faults clock requests folders uploads baseFolder].
  destruct (EncryptMetadata _ _ _) as [c|e]; [|reflexivity].
  destruct fts as [|[e|] rest]; reflexivity.
Qed.


End Creation.

Section CreationOnTheDrive.
Import Fixture.
Local Open Scope string_scope.


End CreationOnTheDrive.

(* ================================================================== *)
(** * Names that survive the JSON encoding *)

Section Names.
Local Open Scope string_scope.

Lemma append_assoc (s t u : string) : ((s ++ t) ++ u = s ++ (t ++ u))%string.
Proof. induction s as [|c s IH]; simpl; [reflexivity | now rewrite IH]. Qed.

Lemma unquote_escapeByte (c : ascii) :
  (code c <? 128)%N = true ->
  forall fuel tail,
    json.unquote (S fuel) (json.escapeByte c ++ tail)
    = json.prepend (String c EmptyString) (json.unquote fuel tail).
Proof.
  destruct c as [lo1 lo2 lo3 lo4 hi1 hi2 hi3 top].
  destruct top;
    [intros Hc; destruct lo1, lo2, lo3, lo4, hi1, hi2, hi3; discriminate Hc|].
  intros _ fuel tail.
  destruct lo1, lo2, lo3, lo4, hi1, hi2, hi3; reflexivity.
Qed.

Lemma escapeByte_length (c : ascii) : 1 <= String.length (json.escapeByte c).
Proof.
  destruct c as [lo1 lo2 lo3 lo4 hi1 hi2 hi3 top].
  destruct lo1, lo2, lo3, lo4, hi1, hi2, hi3, top; cbv; lia.
Qed.

Lemma escape_ascii (name : string) :
  asciiName name ->
  forall rest fuel,
    String.length name < fuel ->
    json.unquote fuel (json.escape (String.length name) name ++ String dquote rest)
    = Some (name, rest).
Proof.
  unfold asciiName. induction name as [|c name IH]; intros Hascii rest fuel Hfuel.
  - destruct fuel as [|fuel]; [inversion Hfuel|]. reflexivity.
  - simpl in Hascii. inversion Hascii as [|? ? Hc Hrest]; subst.
    destruct fuel as [|fuel]; [inversion Hfuel|].
    cbn [String.length json.escape]. rewrite Hc, append_assoc, (@unquote_escapeByte c Hc).
    rewrite IH by (assumption || (simpl in Hfuel; lia)). reflexivity.
Qed.

Lemma escape_ascii_length (name : string) :
  asciiName name ->
  String.length name <= String.length (json.escape (String.length name) name).
Proof.
  unfold asciiName. induction name as [|c name IH]; intros Hascii; [simpl; lia|].
  simpl in Hascii. inversion Hascii as [|? ? Hc Hrest]; subst.
  cbn [String.length json.escape]. rewrite Hc, length_append.
  pose proof (escapeByte_length c). specialize (IH Hrest). lia.
Qed.

Lemma unquote_name_key (tail : string) :
  json.unquote (S (String.length ("name" ++ String dquote tail)))
               ("name" ++ String dquote tail)
  = Some ("name", tail).
Proof. reflexivity. Qed.

Lemma parse_nameMetadata (name : string) :
  asciiName name ->
  json.parse (nameMetadata name) = Some (json.Object [("name", json.Str name)]).
Proof.
  intros Hascii.
  assert (Hdata : nameMetadata name =
    String "{" (String dquote ("name" ++ String dquote (String ":" (String dquote
      (json.escape (String.length name) name ++ String dquote "}")))))).
  { unfold nameMetadata, json.quote. cbn. now rewrite append_assoc. }
  rewrite Hdata. unfold json.parse.
  set (body := json.escape (String.length name) name ++ String dquote "}").
  assert (Hbody : json.unquote (S (String.length body)) body = Some (name, "}")).
  { subst body. apply escape_ascii; [exact Hascii|].
    rewrite length_append. pose proof (@escape_ascii_length name Hascii). lia. }
  remember (2 * String.length _ + 2) as fuel eqn:Hfuel.
  destruct fuel as [|[|[|fuel]]]; try (cbn in Hfuel; lia). clear Hfuel.
  cbn -[body json.unquote String.length append].
  rewrite unquote_name_key.
  cbn -[body json.unquote String.length append].
  rewrite Hbody. reflexivity.
Qed.

Lemma name_roundtrip_ascii (name : string) :
  asciiName name ->
  json.Unmarshal (nameMetadata name) directoryName
  = ([("name", json.KString, json.VString name)], None).
Proof.
  intros Hascii. unfold json.Unmarshal. rewrite (@parse_nameMetadata name Hascii). reflexivity.
Qed.

(** A byte that is not UTF-8 does not come back: it is written as the
    escape of U+FFFD. *)
Example name_roundtrip_not_utf8 : ~ name_roundtrip (String "255"%char EmptyString).
Proof. unfold name_roundtrip. vm_compute. discriminate. Qed.

End Names.

(* ================================================================== *)
(** * Materializing a path *)

Section Materializer.
Context `{Externals}.
Variable filen : Filen.
Local Open Scope string_scope.
Local Open Scope list_scope.

Lemma delivered_Ok {A} (w : World) (x : result A) (v : A) :
  delivered w x = Ok v -> x = Ok v.
Proof. unfold delivered. destruct (faults w) as [|[e|] rest]; congruence. Qed.

Lemma delivered_reliable {A} (w : World) (x : result A) :
  faults w = [] -> delivered w x = x.
Proof. unfold delivered. now intros ->. Qed.

Lemma loop_step (segment : string) (rest : list string) (cur : string) (w : World) :
  segment <> EmptyString ->
  FindDirectoryOrCreate_loop filen (segment :: rest) cur w =
  match delivered w (listing filen w cur) with
  | Err e => (Err e, client.sent (ReqGetDirectoryContent cur) w)
  | Ok (_, directories) =>
      match findDirectory directories segment with
      | Some d =>
          FindDirectoryOrCreate_loop filen rest (Directory.UUID d)
            (client.sent (ReqGetDirectoryContent cur) w)
      | None =>
          match CreateDirectory filen cur segment
                  (client.sent (ReqGetDirectoryContent cur) w) with
          | (Ok d, wb) => FindDirectoryOrCreate_loop filen rest (Directory.UUID d) wb
          | (Err e, wb) => (Err e, wb)
          end
      end
  end.
Proof.
  intros Hne. apply String.eqb_neq in Hne.
  cbn [FindDirectoryOrCreate_loop]. rewrite Hne.
  unfold bind at 1. rewrite ReadDirectory_run.
  destruct (delivered w (listing filen w cur)) as [[files directories]|e]; [|reflexivity].
  destruct (findDirectory directories segment); [reflexivity|].
  unfold bind.
  destruct (CreateDirectory filen cur segment _) as [[d|e] wb]; reflexivity.
Qed.

Lemma nonEmpty_cons (segment : string) (rest : list string) :
  segment <> EmptyString -> nonEmpty (segment :: rest) = segment :: nonEmpty rest.
Proof.
  intros Hne. apply String.eqb_neq in Hne. unfold nonEmpty. simpl. now rewrite Hne.
Qed.

Lemma loop_nonEmpty (segments : list string) : forall cur w,
  FindDirectoryOrCreate_loop filen segments cur w =
  FindDirectoryOrCreate_loop filen (nonEmpty segments) cur w.
Proof.
  induction segments as [|segment rest IH]; intros cur w; [reflexivity|].
  destruct (String.eqb_spec segment EmptyString) as [->|Hne].
  - apply IH.
  - rewrite (nonEmpty_cons rest Hne), !loop_step by exact Hne.
    destruct (delivered w (listing filen w cur)) as [[files directories]|e]; [|reflexivity].
    destruct (findDirectory directories segment); [apply IH|].
    destruct (CreateDirectory filen cur segment _) as [[d|e] wb]; [apply IH | reflexivity].
Qed.

(** ** Worlds that grow *)







Lemma transform_decodable (entries : list Folder.t) :
  Forall (decodable filen) entries ->
  exists r, transform (transformDirectory filen) entries [] = Ok r.
Proof.
  induction 1 as [|f entries [d Hd] _ [r Hr]].
  - now exists [].
  - exists ([d] ++ r). apply (@transform_app _ _ _ [f] entries); [|exact Hr].
    simpl. now rewrite Hd.
Qed.

(** A listing read again after the drive has grown: the same files, the
    same directories first, then the decoded new children. *)
Lemma listing_more (w w' : World) (more : list Folder.t) (cur : string) files directories :
  uploads w' = uploads w ->
  folders w' = folders w ++ more ->
  Forall (decodable filen) more ->
  listing filen w cur = Ok (files, directories) ->
  exists added,
    transform (transformDirectory filen) (filter (client.childFolder cur) more) [] = Ok added /\
    listing filen w' cur = Ok (files, directories ++ added).
Proof.
  intros Hu Hf Hmore Hl. unfold listing in *. rewrite Hu, Hf, filter_app.
  destruct (transform (transformFile filen) _ []) as [files'|e]; [|discriminate].
  destruct (transform (transformDirectory filen) (filter _ (folders w)) [])
    as [dirs'|e] eqn:Hd; [|discriminate].
  injection Hl as <- <-.
  destruct (@transform_decodable (filter (client.childFolder cur) more)) as [added Ha].
  { apply Forall_forall. intros f Hin. apply filter_In in Hin as [Hin _].
    revert f Hin. now apply Forall_forall. }
  exists added. split; [exact Ha|].
  now rewrite (transform_app _ _ _ Hd Ha).
Qed.



(** The folder stored for a listable name is listed under that name. *)
Lemma newFolder_listed (parentUUID name c : string) (r : nat) (w : World) :
  listable filen name ->
  EncryptMetadata r (nameMetadata name) (CurrentMasterKey filen) = Ok c ->
  transformDirectory filen (newFolder parentUUID c w) =
  Ok {| Directory.UUID := uuidString (entropy w); Directory.Name := name;
        Directory.ParentUUID := parentUUID; Directory.Color := "<none>";
        Directory.Created := TimestampToTime (clock w);
        Directory.Favorited := false |}.
Proof.
  intros [Hcipher Hjson] Henc. unfold transformDirectory, newFolder. cbn [Folder.Name].
  rewrite (Hcipher r c Henc), Hjson. reflexivity.
Qed.

Lemma listable_ascii (name : string) :
  cipher_roundtrip filen (nameMetadata name) -> asciiName name -> listable filen name.
Proof.
  intros Hcipher Hascii. split; [exact Hcipher | exact (@name_roundtrip_ascii name Hascii)].
Qed.

Lemma sent_reliable (r : Request) (w : World) :
  faults w = [] -> faults (client.sent r w) = [].
Proof. intros Hf. cbn. now rewrite Hf. Qed.

(** ** A second walk finds what the first one found or made *)


(** ** The whole call *)

Lemma loop_all_empty (segments : list string) (cur : string) (w : World) :
  Forall (fun segment => segment = EmptyString) segments ->
  FindDirectoryOrCreate_loop filen segments cur w = (Ok cur, w).
Proof.
  induction 1 as [|segment rest -> _ IH]; [reflexivity | exact IH].
Qed.

Lemma FindDirectoryOrCreate_run (path : string) (w : World) :
  FindDirectoryOrCreate filen path w =
  match delivered w (Ok (baseFolder w)) with
  | Ok base =>
      FindDirectoryOrCreate_loop filen (strings.Split path slash) base
        (client.sent ReqGetUserBaseFolder w)
  | Err e => (Err e, client.sent ReqGetUserBaseFolder w)
  end.
Proof.
  unfold FindDirectoryOrCreate, bind. rewrite GetBaseFolderUUID_run.
  destruct (delivered w (Ok (baseFolder w))) as [base|e]; [|reflexivity].
  destruct (Nat.eqb _ 0) eqn:Hzero; [|reflexivity].
  apply zero_segments_test in Hzero. symmetry. now apply loop_all_empty.
Qed.

Lemma Forall2_In_r {A B} (R : A -> B -> Prop) (l : list A) (r : list B) (y : B) :
  Forall2 R l r -> In y r -> exists x, In x l /\ R x y.
Proof.
  induction 1 as [|x y' l r Hxy _ IH]; intros Hin; [contradiction|].
  destruct Hin as [->|Hin].
  - exists x. split; [now left | exact Hxy].
  - destruct (IH Hin) as (x' & Hx' & HR). exists x'. split; [now right | exact HR].
Qed.

(** A directory found in a listing is a folder of the drive. *)
Lemma findDirectory_folder (w : World) (cur segment : string) files directories d :
  listing filen w cur = Ok (files, directories) ->
  findDirectory directories segment = Some d ->
  exists f, In f (folders w) /\ Folder.UUID f = Directory.UUID d.
Proof.
  unfold listing, findDirectory. intros Hl Hfind.
  destruct (transform (transformFile filen) _ []) as [files'|e]; [|discriminate].
  destruct (transform (transformDirectory filen) _ []) as [dirs'|e] eqn:Hd; [|discriminate].
  injection Hl as <- <-.
  apply find_some in Hfind as [Hin _].
  apply transform_Forall2 in Hd.
  edestruct @Forall2_In_r as (f & Hf & Hfd); [exact Hd | exact Hin |].
  apply filter_In in Hf as [Hf _].
  edestruct @transformDirectory_Ok as (_ & _ & _ & Huuid & _); [exact Hfd|].
  exists f. split; [exact Hf | now rewrite Huuid].
Qed.

Lemma loop_result (segments : list string) : forall cur w u w1,
  FindDirectoryOrCreate_loop filen segments cur w = (Ok u, w1) ->
  (exists more, folders w1 = folders w ++ more) /\
  (u = cur \/ exists f, In f (folders w1) /\ Folder.UUID f = u).
Proof.
  induction segments as [|segment rest IH]; intros cur w u w1 Hrun.
  - injection Hrun as <- <-. split; [exists []; now rewrite app_nil_r | now left].
  - destruct (String.eqb_spec segment EmptyString) as [->|Hne];
      [exact (IH cur w u w1 Hrun)|].
    rewrite (loop_step rest cur w Hne) in Hrun.
    destruct (delivered w (listing filen w cur)) as [[files directories]|e] eqn:Hd;
      [|discriminate].
    apply delivered_Ok in Hd.
    destruct (findDirectory directories segment) as [d|] eqn:Hfd.
    + destruct (IH _ _ _ _ Hrun) as ((more & Hmore) & Hu).
      split; [exists more; exact Hmore|]. right.
      destruct Hu as [->|Hu]; [|exact Hu].
      edestruct findDirectory_folder as (f & Hf & Huuid); [exact Hd | exact Hfd |].
      exists f. split; [|exact Huuid].
      rewrite Hmore. apply in_or_app. left. exact Hf.
    + rewrite CreateDirectory_run in Hrun.
      destruct (EncryptMetadata _ _ _) as [c|e]; [|discriminate].
      assert (Hcreated :
        FindDirectoryOrCreate_loop filen rest
          (uuidString (entropy (client.sent (ReqGetDirectoryContent cur) w)))
          (stored (newFolder cur c (client.sent (ReqGetDirectoryContent cur) w))
             (client.sent (createRequest cur segment c
                             (client.sent (ReqGetDirectoryContent cur) w))
                (drawn (client.sent (ReqGetDirectoryContent cur) w))))
        = (Ok u, w1)).
      { destruct (faults (client.sent (ReqGetDirectoryContent cur) w)) as [|[e|] fs];
          try discriminate; exact Hrun. }
      destruct (IH _ _ _ _ Hcreated) as ((more & Hmore) & Hu).
      cbn [stored folders client.sent drawn] in Hmore.
      rewrite <- app_assoc in Hmore.
      split; [eexists; exact Hmore|]. right.
      destruct Hu as [->|Hu]; [|exact Hu].
      exists (newFolder cur c (client.sent (ReqGetDirectoryContent cur) w)).
      split; [|reflexivity].
      rewrite Hmore. apply in_or_app. right. now left.
Qed.



(** ** Creating what is missing *)

Lemma filter_none {A} (f : A -> bool) (l : list A) :
  Forall (fun x => f x = false) l -> filter f l = [].
Proof.
  induction 1 as [|x l Hx _ IH]; simpl; [reflexivity | now rewrite Hx].
Qed.



(** A fresh identifier has no children: its listing is empty. *)
Lemma listing_fresh (w : World) (id : string) :
  Forall (fun f => Folder.Parent f <> id) (folders w) ->
  Forall (fun u => Upload.Parent u <> id) (uploads w) ->
  listing filen w id = Ok ([], []).
Proof.
  intros Hf Hu. unfold listing.
  rewrite (@filter_none _ (client.childFile id) (uploads w)),
          (@filter_none _ (client.childFolder id) (folders w)); [reflexivity | |].
  - eapply Forall_impl; [|exact Hf]. intros f Hne. now apply String.eqb_neq.
  - eapply Forall_impl; [|exact Hu]. intros u Hne. now apply String.eqb_neq.
Qed.





(** C10: [FindDirectoryOrCreate] matches segments against directories only.
    First half: at a segment whose listing has a file of that name and no
    directory of that name, it stores a new folder for the name under the
    current directory and goes on inside it; the listing then has the file
    and, last, a directory of the same name.  Second half: the identifier it
    returns is the root's or that of a folder on the drive it leaves. *)
Theorem FindDirectoryOrCreate_ignores_files :
  (forall segment rest cur w files directories file c,
      segment <> EmptyString ->
      faults w = [] ->
      listing filen w cur = Ok (files, directories) ->
      In file files -> File.Name file = segment ->
      findDirectory directories segment = None ->
      listable filen segment ->
      EncryptMetadata (S (entropy w)) (nameMetadata segment) (CurrentMasterKey filen)
        = Ok c ->
      let wb := stored (newFolder cur c w)
                  (client.sent (createRequest cur segment c w)
                     (drawn (client.sent (ReqGetDirectoryContent cur) w))) in
      FindDirectoryOrCreate_loop filen (segment :: rest) cur w =
      FindDirectoryOrCreate_loop filen rest (uuidString (entropy w)) wb /\
      exists d,
        listing filen wb cur = Ok (files, directories ++ [d]) /\
        findFile files segment <> None /\
        Directory.Name d = segment /\
        Directory.UUID d = uuidString (entropy w) /\
        Directory.ParentUUID d = cur)
  /\
  (forall path w u w1,
      FindDirectoryOrCreate filen path w = (Ok u, w1) ->
      u = baseFolder w \/ exists f, In f (folders w1) /\ Folder.UUID f = u).
Proof.
  split.
  - intros segment rest cur w files directories file c
      Hne Hfa Hl Hin Hname Hfd Hlistable Hc wb.
    split.
    + rewrite (loop_step rest cur w Hne), (delivered_reliable w _ Hfa), Hl, Hfd,
        CreateDirectory_run.
      change (entropy (client.sent (ReqGetDirectoryContent cur) w)) with (entropy w).
      rewrite Hc, (sent_reliable (ReqGetDirectoryContent cur) w Hfa). reflexivity.
    + pose proof (newFolder_listed cur _ w Hlistable Hc) as Hnew.
      edestruct (listing_more w wb) with (more := [newFolder cur c w])
        as (added & Hadded & Hl2); [reflexivity | reflexivity | | exact Hl |].
      { constructor; [eexists; exact Hnew | constructor]. }
      cbn [filter] in Hadded.
      replace (client.childFolder cur (newFolder cur c w)) with true in Hadded
        by (symmetry; apply String.eqb_refl).
      cbn [transform] in Hadded. rewrite Hnew in Hadded. injection Hadded as <-.
      eexists. split; [exact Hl2|].
      split.
      * edestruct findFile_first as (first & Hfirst & _); [exact Hin | exact Hname |].
        rewrite Hfirst. discriminate.
      * repeat split.
  - intros path w u w1 Hrun.
    rewrite FindDirectoryOrCreate_run in Hrun.
    destruct (delivered w (Ok (baseFolder w))) as [base|e] eqn:Hbase; [|discriminate].
    apply delivered_Ok in Hbase. injection Hbase as <-.
    destruct (loop_result _ _ _ Hrun) as (_ & Hu).
    cbn [client.sent baseFolder] in Hu. exact Hu.
Qed.

End Materializer.

Section MaterializerOnTheDrive.
Import Fixture.
Local Open Scope string_scope.
Local Open Scope list_scope.

Ltac listable_on_the_drive :=
  split;
  [ intros r c Hc; vm_compute in Hc; injection Hc as <-; vm_compute; reflexivity
  | vm_compute; reflexivity ].


Lemma FindDirectoryOrCreate_ignores_files_witness :
  (exists wb,
      FindDirectoryOrCreate_loop session ["notes"; "y"] "root"
        (client.sent ReqGetUserBaseFolder drive) =
      FindDirectoryOrCreate_loop session ["y"] "uuid-0" wb /\
      exists files directories,
        listing session wb "root" = Ok (files, directories) /\
        map File.Name files = ["notes"] /\
        map Directory.Name directories = ["a"; "notes"]) /\
  (exists f, In f (folders (snd (FindDirectoryOrCreate session "notes/y" drive))) /\
             Folder.UUID f = "uuid-1").
Proof.
  destruct (@FindDirectoryOrCreate_ignores_files tagged session) as [Hstep Hresult].
  split.
  - destruct (Hstep "notes" ["y"] "root" (client.sent ReqGetUserBaseFolder drive)
                  [{| File.UUID := "file-notes"; File.Name := "notes"; File.Size := 0;
                      File.MimeType := EmptyString; File.EncryptionKey := [];
                      File.Created := 1700000000; File.LastModified := 0;
                      File.ParentUUID := "root"; File.Favorited := true;
                      File.Region := "de-1"; File.Bucket := "filen-1"; File.Chunks := 1 |}]
                  [{| Directory.UUID := "dir-a"; Directory.Name := "a";
                      Directory.ParentUUID := "root"; Directory.Color := "<none>";
                      Directory.Created := 1700000000; Directory.Favorited := false |}]
                  {| File.UUID := "file-notes"; File.Name := "notes"; File.Size := 0;
                     File.MimeType := EmptyString; File.EncryptionKey := [];
                     File.Created := 1700000000; File.LastModified := 0;
                     File.ParentUUID := "root"; File.Favorited := true;
                     File.Region := "de-1"; File.Bucket := "filen-1"; File.Chunks := 1 |}
                  (tag newKey ++ nameMetadata "notes")%string)
      as [Hloop (d & Hlisting & _ & Hname & _)].
    + discriminate.
    + reflexivity.
    + vm_compute. reflexivity.
    + left. reflexivity.
    + reflexivity.
    + reflexivity.
    + listable_on_the_drive.
    + reflexivity.
    + eexists. split; [exact Hloop|].
      do 2 eexists. split; [exact Hlisting|].
      split; [reflexivity|]. cbn [map app]. now rewrite Hname.
  - assert (Hrun : FindDirectoryOrCreate session "notes/y" drive =
                   (Ok "uuid-1", snd (FindDirectoryOrCreate session "notes/y" drive))).
    { rewrite (surjective_pairing (FindDirectoryOrCreate session "notes/y" drive)) at 1.
      apply f_equal2; [vm_compute; reflexivity | reflexivity]. }
    destruct (Hresult "notes/y" drive "uuid-1" _ Hrun) as [Hroot | Hfolder].
    + discriminate Hroot.
    + exact Hfolder.
Defined.

End MaterializerOnTheDrive.

(* ================================================================== *)
(** * Resolving a path: what a walk does and returns *)

Section Walk.
Context `{Externals}.
Variable filen : Filen.
Local Open Scope string_scope.
Local Open Scope list_scope.

Lemma FindItem_loop_step (requireDirectory : bool) (len segmentIdx : nat)
      (segment : string) (rest : list string) (cur : string) (w : World) :
  segment <> EmptyString ->
  FindItem_loop filen requireDirectory len segmentIdx (segment :: rest) cur w =
  match delivered w (listing filen w cur) with
  | Err e => (Err e, client.sent (ReqGetDirectoryContent cur) w)
  | Ok (files, directories) =>
      match (if requireDirectory then None else findFile files segment) with
      | Some file => (Ok (Some file, None), client.sent (ReqGetDirectoryContent cur) w)
      | None =>
          match findDirectory directories segment with
          | Some d =>
              if Nat.eqb segmentIdx (len - 1)
              then (Ok (None, Some d), client.sent (ReqGetDirectoryContent cur) w)
              else FindItem_loop filen requireDirectory len (S segmentIdx) rest
                     (Directory.UUID d) (client.sent (ReqGetDirectoryContent cur) w)
          | None => (Ok (None, None), client.sent (ReqGetDirectoryContent cur) w)
          end
      end
  end.
Proof.
  intros Hne. apply String.eqb_neq in Hne.
  cbn [FindItem_loop]. rewrite Hne.
  unfold bind at 1. rewrite ReadDirectory_run.
  destruct (delivered w (listing filen w cur)) as [[files directories]|e]; [|reflexivity].
  destruct (if requireDirectory then None else findFile files segment); [reflexivity|].
  destruct (findDirectory directories segment); [|reflexivity].
  destruct (Nat.eqb segmentIdx (len - 1)); reflexivity.
Qed.

Lemma FindItem_run (path : string) (requireDirectory : bool) (w : World) :
  FindItem filen path requireDirectory w =
  match delivered w (Ok (baseFolder w)) with
  | Err e => (Err e, client.sent ReqGetUserBaseFolder w)
  | Ok base =>
      if Nat.eqb (String.length (strings.Join (strings.Split path slash) EmptyString)) 0
      then (Err (errorString ("no segments in path " ++ path)),
            client.sent ReqGetUserBaseFolder w)
      else FindItem_loop filen requireDirectory (List.length (strings.Split path slash)) 0
             (strings.Split path slash) base (client.sent ReqGetUserBaseFolder w)
  end.
Proof.
  unfold FindItem, bind. rewrite GetBaseFolderUUID_run.
  destruct (delivered w (Ok (baseFolder w))) as [base|e]; [|reflexivity].
  destruct (Nat.eqb _ 0); reflexivity.
Qed.

Lemma same_drive_refl (w : World) : same_drive w w.
Proof. repeat split. Qed.

Lemma same_drive_sent (r : Request) (w : World) : same_drive w (client.sent r w).
Proof. repeat split. Qed.

(** ** The walk only reads *)

Lemma FindItem_loop_reads (requireDirectory : bool) (segments : list string) :
  forall len segmentIdx cur w,
    same_drive w (snd (FindItem_loop filen requireDirectory len segmentIdx segments cur w)) /\
    exists listings,
      requests (snd (FindItem_loop filen requireDirectory len segmentIdx segments cur w))
        = requests w ++ listings /\
      Forall is_listing listings /\
      List.length listings <= List.length (nonEmpty segments).
Proof.
  assert (Hone : forall cur w,
    same_drive w (client.sent (ReqGetDirectoryContent cur) w) /\
    exists listings,
      requests (client.sent (ReqGetDirectoryContent cur) w) = requests w ++ listings /\
      Forall is_listing listings /\ List.length listings <= 1).
  { intros cur w. split; [apply same_drive_sent|].
    exists [ReqGetDirectoryContent cur]. split; [reflexivity|].
    split; [repeat constructor | simpl; lia]. }
  induction segments as [|segment rest IH]; intros len segmentIdx cur w.
  - split; [apply same_drive_refl|]. exists []. cbn.
    rewrite app_nil_r. repeat split; constructor.
  - destruct (String.eqb_spec segment EmptyString) as [->|Hne].
    + exact (IH len (S segmentIdx) cur w).
    + rewrite (nonEmpty_cons rest Hne), (FindItem_loop_step _ _ _ rest cur w Hne).
      destruct (Hone cur w) as (Hsame & ls & Hreq & Hls & Hlen).
      assert (Hstop : forall r : result (option File.t * option Directory.t),
        same_drive w (snd (r, client.sent (ReqGetDirectoryContent cur) w)) /\
        exists listings,
          requests (snd (r, client.sent (ReqGetDirectoryContent cur) w))
            = requests w ++ listings /\
          Forall is_listing listings /\
          List.length listings <= List.length (segment :: nonEmpty rest)).
      { intros r. split; [exact Hsame|]. exists ls. cbn [snd List.length].
        repeat split; try assumption. lia. }
      destruct (delivered w (listing filen w cur)) as [[files directories]|e];
        [|apply Hstop].
      destruct (if requireDirectory then None else findFile files segment);
        [apply Hstop|].
      destruct (findDirectory directories segment) as [d|]; [|apply Hstop].
      destruct (Nat.eqb segmentIdx (len - 1)); [apply Hstop|].
      destruct (IH len (S segmentIdx) (Directory.UUID d)
                   (client.sent (ReqGetDirectoryContent cur) w))
        as (Hsame' & ls' & Hreq' & Hls' & Hlen').
      split; [exact Hsame'|].
      exists (ReqGetDirectoryContent cur :: ls'). split.
      * rewrite Hreq'. cbn [client.sent requests]. now rewrite <- app_assoc.
      * split; [constructor; [exact I | exact Hls'] | simpl; lia].
Qed.

Lemma FindItemUUID_world (path : string) (requireDirectory : bool) (w : World) :
  snd (FindItemUUID filen path requireDirectory w) =
  snd (FindItem filen path requireDirectory w).
Proof.
  unfold FindItemUUID.
  destruct (Nat.eqb _ 0) eqn:Hzero.
  - rewrite FindItem_run, Hzero.
    unfold bind. rewrite GetBaseFolderUUID_run.
    destruct (delivered w (Ok (baseFolder w))); reflexivity.
  - unfold bind.
    destruct (FindItem filen path requireDirectory w) as [[[[f|] [d|]]|e] w'];
      reflexivity.
Qed.

(** X1: [FindItem] and [FindItemUUID] only read.  Whatever the path, the
    transport and the outcome, they leave the drive, the random source and
    the clock as they were; the requests they send are the fetch of the
    root folder followed by listing requests only, at most one for each
    non-empty segment of the path; and [FindItemUUID] sends exactly what
    [FindItem] sends. *)
Theorem FindItem_only_reads (path : string) (requireDirectory : bool) (w : World) :
  same_drive w (snd (FindItem filen path requireDirectory w)) /\
  snd (FindItemUUID filen path requireDirectory w)
    = snd (FindItem filen path requireDirectory w) /\
  exists listings,
    requests (snd (FindItem filen path requireDirectory w))
      = requests w ++ ReqGetUserBaseFolder :: listings /\
    Forall is_listing listings /\
    List.length listings <= List.length (nonEmpty (strings.Split path slash)).
Proof.
  split; [|split; [apply FindItemUUID_world|]]; rewrite FindItem_run.
  - destruct (delivered w (Ok (baseFolder w))) as [base|e]; [|apply same_drive_sent].
    destruct (Nat.eqb _ 0); [apply same_drive_sent|].
    exact (proj1 (FindItem_loop_reads requireDirectory (strings.Split path slash)
                    _ 0 base (client.sent ReqGetUserBaseFolder w))).
  - assert (Hstop : forall r : result (option File.t * option Directory.t),
      exists listings,
        requests (snd (r, client.sent ReqGetUserBaseFolder w))
          = requests w ++ ReqGetUserBaseFolder :: listings /\
        Forall is_listing listings /\
        List.length listings <= List.length (nonEmpty (strings.Split path slash))).
    { intros r. exists []. repeat split; [constructor | simpl; lia]. }
    destruct (delivered w (Ok (baseFolder w))) as [base|e]; [|apply Hstop].
    destruct (Nat.eqb _ 0); [apply Hstop|].
    destruct (FindItem_loop_reads requireDirectory (strings.Split path slash)
                (List.length (strings.Split path slash)) 0 base
                (client.sent ReqGetUserBaseFolder w))
      as (_ & ls & Hreq & Hls & Hlen).
    exists ls. rewrite Hreq. cbn [client.sent requests].
    rewrite <- app_assoc. auto.
Qed.

(** ** What the walk returns *)

Lemma Forall2_In_l {A B} (R : A -> B -> Prop) (l : list A) (r : list B) (y : B) :
  Forall2 R l r -> In y r -> exists x, In x l /\ R x y.
Proof.
  induction 1 as [|x y' l r Hxy _ IH]; intros Hin; [contradiction|].
  destruct Hin as [->|Hin].
  - exists x. split; [now left | exact Hxy].
  - destruct (IH Hin) as (x' & Hx' & HR). exists x'. split; [now right | exact HR].
Qed.

(** A file found in a listing is an upload of the drive, a child of the
    directory listed. *)
Lemma findFile_upload (w : World) (cur segment : string) files directories f :
  listing filen w cur = Ok (files, directories) ->
  findFile files segment = Some f ->
  File.Name f = segment /\
  exists u, In u (uploads w) /\ Upload.Parent u = cur /\ transformFile filen u = Ok f.
Proof.
  unfold listing, findFile. intros Hl Hfind.
  destruct (transform (transformFile filen) _ []) as [files'|e] eqn:Hf; [|discriminate].
  destruct (transform (transformDirectory filen) _ []) as [dirs'|e]; [|discriminate].
  injection Hl as <- <-.
  apply find_some in Hfind as [Hin Hname]. apply String.eqb_eq in Hname.
  split; [exact Hname|].
  apply transform_Forall2 in Hf.
  edestruct @Forall2_In_l as (u & Hu & Huf); [exact Hf | exact Hin |].
  apply filter_In in Hu as [Hu Hparent]. apply String.eqb_eq in Hparent.
  exists u. auto.
Qed.

(** A directory found in a listing is a folder of the drive, a child of
    the directory listed. *)
Lemma findDirectory_child (w : World) (cur segment : string) files directories d :
  listing filen w cur = Ok (files, directories) ->
  findDirectory directories segment = Some d ->
  Directory.Name d = segment /\
  exists f, In f (folders w) /\ Folder.Parent f = cur /\ transformDirectory filen f = Ok d.
Proof.
  unfold listing, findDirectory. intros Hl Hfind.
  destruct (transform (transformFile filen) _ []) as [files'|e]; [|discriminate].
  destruct (transform (transformDirectory filen) _ []) as [dirs'|e] eqn:Hd; [|discriminate].
  injection Hl as <- <-.
  apply find_some in Hfind as [Hin Hname]. apply String.eqb_eq in Hname.
  split; [exact Hname|].
  apply transform_Forall2 in Hd.
  edestruct @Forall2_In_l as (f & Hf & Hfd); [exact Hd | exact Hin |].
  apply filter_In in Hf as [Hf Hparent]. apply String.eqb_eq in Hparent.
  exists f. auto.
Qed.

Lemma last_tail (x : string) (rest : list string) :
  rest <> [] -> last (x :: rest) EmptyString = last rest EmptyString.
Proof. destruct rest; [congruence | reflexivity]. Qed.

Lemma sound_cons (requireDirectory : bool) (w : World) (segment : string)
      (rest : list string) (found : option File.t * option Directory.t) :
  sound filen requireDirectory w rest found ->
  sound filen requireDirectory w (segment :: rest) found.
Proof.
  destruct found as [[file|] [directory|]]; cbn [sound]; auto.
  - intros [Hrd [Hin Hu]]. split; [exact Hrd|]. split; [|exact Hu].
    unfold nonEmpty in *. cbn [filter].
    destruct (negb (String.eqb segment EmptyString)); [now right | exact Hin].
  - intros (Hname & Hnamed & Hfo). split; [|split; [exact Hnamed | exact Hfo]].
    rewrite last_tail; [exact Hname|].
    intros ->. apply Hnamed. exact Hname.
Qed.

Lemma FindItem_loop_sound (requireDirectory : bool) (segments : list string) :
  forall len segmentIdx cur w found w',
    segmentIdx + List.length segments = len ->
    FindItem_loop filen requireDirectory len segmentIdx segments cur w = (Ok found, w') ->
    sound filen requireDirectory w segments found.
Proof.
  induction segments as [|segment rest IH]; intros len segmentIdx cur w found w' Hlen Hrun.
  - discriminate Hrun.
  - destruct (String.eqb_spec segment EmptyString) as [->|Hne].
    + cbn [FindItem_loop] in Hrun. rewrite String.eqb_refl in Hrun.
      apply sound_cons.
      apply (IH len (S segmentIdx) cur w found w'); [simpl in Hlen; lia | exact Hrun].
    + rewrite (FindItem_loop_step _ _ _ rest cur w Hne) in Hrun.
      destruct (delivered w (listing filen w cur)) as [[files directories]|e] eqn:Hd;
        [|discriminate].
      apply delivered_Ok in Hd.
      destruct (if requireDirectory then None else findFile files segment)
        as [file|] eqn:Hf.
      * injection Hrun as <- <-.
        destruct requireDirectory; [discriminate|].
        destruct (@findFile_upload w cur segment files directories file Hd Hf)
          as (Hname & u & Hu & _ & Hdec).
        cbn [sound]. split; [reflexivity|]. split; [|eauto].
        rewrite (nonEmpty_cons rest Hne), Hname. now left.
      * destruct (findDirectory directories segment) as [dir|] eqn:Hfd.
        -- destruct (@findDirectory_child w cur segment files directories dir Hd Hfd)
             as (Hname & fo & Hfo & _ & Hdec).
           destruct (Nat.eqb_spec segmentIdx (len - 1)) as [Hidx|Hidx].
           ++ injection Hrun as <- <-.
              assert (rest = []) by (destruct rest; [reflexivity | simpl in Hlen; lia]).
              subst rest. cbn [sound]. split; [exact Hname|].
              split; [now rewrite Hname | eauto].
           ++ apply sound_cons.
              apply (IH len (S segmentIdx) (Directory.UUID dir)
                        (client.sent (ReqGetDirectoryContent cur) w) found w');
                [simpl in Hlen; lia | exact Hrun].
        -- injection Hrun as <- <-. exact I.
Qed.

(** X2: what [FindItem] returns without error is sound.  It never returns
    both a file and a directory, and no file when [requireDirectory] is
    set.  A directory it returns decodes from a folder of the drive and is
    named like the last element of the split path, which is then not
    empty.  A file it returns decodes from an upload of the drive and is
    named like one of the non-empty segments of the path. *)
Theorem FindItem_result_sound (path : string) (requireDirectory : bool) (w w' : World)
        (f : option File.t) (d : option Directory.t) :
  FindItem filen path requireDirectory w = (Ok (f, d), w') ->
  (f = None \/ d = None) /\
  (requireDirectory = true -> f = None) /\
  (forall file, f = Some file ->
     In (File.Name file) (nonEmpty (strings.Split path slash)) /\
     exists u, In u (uploads w) /\ transformFile filen u = Ok file) /\
  (forall directory, d = Some directory ->
     Directory.Name directory = last (strings.Split path slash) EmptyString /\
     Directory.Name directory <> EmptyString /\
     exists fo, In fo (folders w) /\ transformDirectory filen fo = Ok directory).
Proof.
  rewrite FindItem_run. intros Hrun.
  destruct (delivered w (Ok (baseFolder w))) as [base|e]; [|discriminate].
  destruct (Nat.eqb _ 0); [discriminate|].
  pose proof (@FindItem_loop_sound requireDirectory (strings.Split path slash) _ 0 base
                (client.sent ReqGetUserBaseFolder w) (f, d) w' eq_refl Hrun) as Hs.
  destruct f as [file|], d as [directory|]; cbn [sound] in Hs.
  - contradiction.
  - destruct Hs as [Hrd Hfile].
    split; [now right|]. split; [congruence|].
    split; [intros file' [= <-]; exact Hfile | intros directory; discriminate].
  - split; [now left|]. split; [reflexivity|].
    split; [intros file; discriminate | intros directory' [= <-]; exact Hs].
  - split; [now left|]. split; [reflexivity|].
    split; [intros file; discriminate | intros directory; discriminate].
Qed.

End Walk.

(* ================================================================== *)
(** * Resolving a path: where a walk ends *)

Section Slashes.
Local Open Scope string_scope.

Lemma Split_append_slash (p : string) :
  strings.Split (p ++ String slash EmptyString) slash
  = (strings.Split p slash ++ [EmptyString])%list.
Proof.
  induction p as [|c p IH]; [reflexivity|].
  cbn [append strings.Split]. rewrite IH.
  destruct (Ascii.eqb c slash); [reflexivity|].
  destruct (strings.Split p slash) as [|piece pieces] eqn:Hp; [|reflexivity].
  now apply Split_not_nil in Hp.
Qed.

Lemma zero_segments_nonEmpty (path : string) :
  zero_segments path <-> nonEmpty (strings.Split path slash) = [].
Proof.
  unfold zero_segments, nonEmpty.
  induction (strings.Split path slash) as [|segment rest IH]; cbn [filter].
  - split; auto.
  - destruct (String.eqb_spec segment EmptyString) as [->|Hne]; cbn [negb].
    + rewrite <- IH. split; [intros Hall; now inversion Hall | now constructor].
    + split; [intros Hall; inversion Hall; contradiction | discriminate].
Qed.

End Slashes.

Section Ends.
Context `{Externals}.
Variable filen : Filen.
Local Open Scope string_scope.
Local Open Scope list_scope.

(** X3: not found is not an error, and it ends the walk.  When the walk
    of [FindItem] has come down directories to some directory, and the next
    non-empty segment names no directory of its listing and (if files
    count) no file, [FindItem] returns neither file nor directory nor error
    right after that listing, whatever segments follow. *)
Theorem FindItem_not_found
        (path : string) (requireDirectory : bool) (w w1 w2 w3 : World)
        (base parent segment : string) (pre rest : list string)
        (files : list File.t) (directories : list Directory.t) :
  GetBaseFolderUUID w = (Ok base, w1) ->
  strings.Split path slash = pre ++ segment :: rest ->
  segment <> EmptyString ->
  descends filen requireDirectory base w1 pre parent w2 ->
  ReadDirectory filen parent w2 = (Ok (files, directories), w3) ->
  (requireDirectory = false -> findFile files segment = None) ->
  findDirectory directories segment = None ->
  FindItem filen path requireDirectory w = (Ok (None, None), w3).
Proof.
  intros Hbase Hsplit Hne Hwalk Hread Hfile Hdir.
  assert (Hsome : Nat.eqb (String.length
            (strings.Join (strings.Split path slash) EmptyString)) 0 = false).
  { apply Bool.not_true_iff_false. rewrite <- zero_segments_test.
    unfold zero_segments. rewrite Hsplit, Forall_app.
    intros [_ Hlast]. inversion Hlast; subst. congruence. }
  unfold FindItem, bind. rewrite Hbase, Hsome, Hsplit.
  rewrite (@FindItem_loop_descends _ filen requireDirectory base w1 pre parent w2 Hwalk
             (List.length (pre ++ segment :: rest)) 0 (segment :: rest));
    [| rewrite length_app; simpl; lia | discriminate].
  apply String.eqb_neq in Hne.
  cbn [FindItem_loop]. rewrite Hne. unfold bind. rewrite Hread.
  assert (Hf : (if requireDirectory then None else findFile files segment) = None)
    by (destruct requireDirectory; [reflexivity | now apply Hfile]).
  rewrite Hf, Hdir. reflexivity.
Qed.

Lemma FindItem_loop_all_empty (requireDirectory : bool) (segments : list string) :
  forall len segmentIdx cur w,
    Forall (fun segment => segment = EmptyString) segments ->
    FindItem_loop filen requireDirectory len segmentIdx segments cur w
    = (Err (errorString "unreachable"), w).
Proof.
  induction segments as [|segment rest IH]; intros len segmentIdx cur w Hall;
    [reflexivity|].
  inversion Hall as [|? ? -> Hrest]; subst.
  cbn [FindItem_loop]. rewrite String.eqb_refl. now apply IH.
Qed.

(** X4: a path that ends in a slash does not resolve to the directory it
    names.  If every non-empty segment of [p] names a directory on the way
    down (and, when files count, no file), then [FindItem] on [p] followed
    by a slash fails with the error "unreachable", after the listings of
    the walk. *)
Theorem FindItem_trailing_slash_unreachable
        (p : string) (requireDirectory : bool) (w w1 w' : World) (base cur' : string) :
  GetBaseFolderUUID w = (Ok base, w1) ->
  ~ zero_segments p ->
  descends filen requireDirectory base w1 (strings.Split p slash) cur' w' ->
  FindItem filen (p ++ String slash EmptyString) requireDirectory w
  = (Err (errorString "unreachable"), w').
Proof.
  intros Hbase Hsome Hwalk.
  assert (Htest : Nat.eqb (String.length (strings.Join
            (strings.Split (p ++ String slash EmptyString) slash) EmptyString)) 0 = false).
  { apply Bool.not_true_iff_false. rewrite <- zero_segments_test.
    unfold zero_segments. rewrite Split_append_slash, Forall_app.
    intros [Hall _]. now apply Hsome. }
  unfold FindItem, bind. rewrite Hbase, Htest, Split_append_slash.
  rewrite (@FindItem_loop_descends _ filen requireDirectory base w1 _ cur' w' Hwalk
             (List.length (strings.Split p slash ++ [EmptyString])) 0 [EmptyString]);
    [| rewrite length_app; simpl; lia | discriminate].
  apply FindItem_loop_all_empty. repeat constructor.
Qed.


(** ** Slashes *)

Lemma nonEmpty_nil_last (segments : list string) :
  nonEmpty segments = [] -> last segments EmptyString = EmptyString.
Proof.
  induction segments as [|segment rest IH]; [reflexivity|].
  destruct (String.eqb_spec segment EmptyString) as [->|Hne].
  - intros Hrest. destruct rest as [|next rest]; [reflexivity|].
    rewrite last_tail by discriminate. now apply IH.
  - rewrite (nonEmpty_cons rest Hne). discriminate.
Qed.

Lemma endsEmpty_tail (segment : string) (rest : list string) :
  rest <> [] -> endsEmpty (segment :: rest) = endsEmpty rest.
Proof. intros Hrest. unfold endsEmpty. now rewrite last_tail. Qed.

(** The loop of [FindItem] looks at the split path only through its
    non-empty segments and through whether its last element is empty. *)
Lemma FindItem_loop_resolve (requireDirectory : bool) (segments : list string) :
  forall len segmentIdx cur w,
    segmentIdx + List.length segments = len ->
    FindItem_loop filen requireDirectory len segmentIdx segments cur w =
    resolve filen requireDirectory (endsEmpty segments) (nonEmpty segments) cur w.
Proof.
  induction segments as [|segment rest IH]; intros len segmentIdx cur w Hlen;
    [reflexivity|].
  destruct (String.eqb_spec segment EmptyString) as [->|Hne].
  - cbn [FindItem_loop]. rewrite String.eqb_refl.
    change (nonEmpty (EmptyString :: rest)) with (nonEmpty rest).
    destruct rest as [|next rest]; [reflexivity|].
    rewrite endsEmpty_tail by discriminate.
    apply IH. simpl in Hlen |- *. lia.
  - rewrite (nonEmpty_cons rest Hne).
    apply String.eqb_neq in Hne as Hneb.
    cbn [FindItem_loop resolve]. rewrite Hneb. unfold bind.
    destruct (ReadDirectory filen cur w) as [[[files directories]|e] wa]; [|reflexivity].
    destruct (if requireDirectory then None else findFile files segment); [reflexivity|].
    destruct (findDirectory directories segment) as [d|]; [|reflexivity].
    destruct rest as [|next rest].
    + replace (Nat.eqb segmentIdx (len - 1)) with true
        by (symmetry; apply Nat.eqb_eq; simpl in Hlen; lia).
      unfold endsEmpty. cbn [last nonEmpty filter]. rewrite Hneb. reflexivity.
    + replace (Nat.eqb segmentIdx (len - 1)) with false
        by (symmetry; apply Nat.eqb_neq; simpl in Hlen; lia).
      rewrite endsEmpty_tail by discriminate.
      rewrite (IH len (S segmentIdx)) by (simpl in Hlen |- *; lia).
      destruct (nonEmpty (next :: rest)) as [|name names] eqn:Hnames; [|reflexivity].
      unfold endsEmpty. rewrite (nonEmpty_nil_last _ Hnames). reflexivity.
Qed.

(** X5: leading and repeated slashes mean nothing to [FindItem].  Two paths
    with the same non-empty segments (at least one), of which both or
    neither end in a slash, are resolved alike: the same requests, the same
    result. *)
Theorem FindItem_slashes (p p' : string) (requireDirectory : bool) (w : World) :
  nonEmpty (strings.Split p slash) = nonEmpty (strings.Split p' slash) ->
  nonEmpty (strings.Split p slash) <> [] ->
  endsEmpty (strings.Split p slash) = endsEmpty (strings.Split p' slash) ->
  FindItem filen p requireDirectory w = FindItem filen p' requireDirectory w.
Proof.
  intros Hnames Hsome Hends.
  assert (Htest : forall q, nonEmpty (strings.Split q slash) <> [] ->
            Nat.eqb (String.length
              (strings.Join (strings.Split q slash) EmptyString)) 0 = false).
  { intros q Hq. apply Bool.not_true_iff_false.
    rewrite <- zero_segments_test, zero_segments_nonEmpty. exact Hq. }
  rewrite !FindItem_run, (Htest p Hsome), (Htest p') by (rewrite <- Hnames; exact Hsome).
  destruct (delivered w (Ok (baseFolder w))) as [base|e]; [|reflexivity].
  rewrite !FindItem_loop_resolve by reflexivity.
  now rewrite Hnames, Hends.
Qed.

(** ** Files out of the way *)

Lemma findFile_none (w : World) (cur segment : string) files directories :
  listing filen w cur = Ok (files, directories) ->
  (forall u file, In u (uploads w) -> transformFile filen u = Ok file ->
                  File.Name file <> segment) ->
  findFile files segment = None.
Proof.
  intros Hl Hnone.
  destruct (findFile files segment) as [file|] eqn:Hf; [|reflexivity].
  destruct (@findFile_upload _ filen w cur segment files directories file Hl Hf)
    as (Hname & u & Hu & _ & Hdec).
  now destruct (Hnone u file Hu Hdec).
Qed.

Lemma FindItem_loop_no_such_file (segments : list string) :
  forall len segmentIdx cur w,
    (forall u file, In u (uploads w) -> transformFile filen u = Ok file ->
                    ~ In (File.Name file) (nonEmpty segments)) ->
    FindItem_loop filen false len segmentIdx segments cur w =
    FindItem_loop filen true len segmentIdx segments cur w.
Proof.
  induction segments as [|segment rest IH]; intros len segmentIdx cur w Hnone;
    [reflexivity|].
  destruct (String.eqb_spec segment EmptyString) as [->|Hne].
  - cbn [FindItem_loop]. rewrite String.eqb_refl. now apply IH.
  - rewrite (nonEmpty_cons rest Hne) in Hnone.
    rewrite !(FindItem_loop_step filen _ _ _ rest cur w Hne).
    destruct (delivered w (listing filen w cur)) as [[files directories]|e] eqn:Hd;
      [|reflexivity].
    apply delivered_Ok in Hd.
    rewrite (@findFile_none w cur segment files directories Hd).
    + destruct (findDirectory directories segment) as [d|]; [|reflexivity].
      destruct (Nat.eqb segmentIdx (len - 1)); [reflexivity|].
      apply IH. intros u file Hu Hdec Hin. apply (Hnone u file Hu Hdec). now right.
    + intros u file Hu Hdec Heq. apply (Hnone u file Hu Hdec). now left.
Qed.

(** X6: [requireDirectory] only matters where a file is in the way.  When
    no upload of the drive decodes to a file named like a non-empty
    segment of the path, [FindItem] does the same and returns the same
    with [requireDirectory] false as with [requireDirectory] true. *)
Theorem FindItem_requireDirectory_without_files (path : string) (w : World) :
  (forall u file, In u (uploads w) -> transformFile filen u = Ok file ->
                  ~ In (File.Name file) (nonEmpty (strings.Split path slash))) ->
  FindItem filen path false w = FindItem filen path true w.
Proof.
  intros Hnone. rewrite !FindItem_run.
  destruct (delivered w (Ok (baseFolder w))) as [base|e]; [|reflexivity].
  destruct (Nat.eqb _ 0); [reflexivity|].
  now apply FindItem_loop_no_such_file.
Qed.

End Ends.

(* ================================================================== *)
(** * Materializing a path: what it leaves behind *)

Section Grows.
Context `{Externals}.
Variable filen : Filen.
Local Open Scope string_scope.
Local Open Scope list_scope.

(** X7: slashes mean nothing to [FindDirectoryOrCreate].  Two paths with
    the same non-empty segments are materialized alike, whether or not they
    begin, end or abound in slashes. *)
Theorem FindDirectoryOrCreate_slashes (p p' : string) (w : World) :
  nonEmpty (strings.Split p slash) = nonEmpty (strings.Split p' slash) ->
  FindDirectoryOrCreate filen p w = FindDirectoryOrCreate filen p' w.
Proof.
  intros Hnames. rewrite !FindDirectoryOrCreate_run.
  destruct (delivered w (Ok (baseFolder w))) as [base|e]; [|reflexivity].
  rewrite (loop_nonEmpty filen (strings.Split p slash)),
          (loop_nonEmpty filen (strings.Split p' slash)).
  now rewrite Hnames.
Qed.

(** X8: on a path with zero non-empty segments [FindDirectoryOrCreate]
    sends one request, the fetch of the root folder, and returns its
    answer: the identifier of the root, or the transport's error.  It lists
    nothing and creates nothing. *)
Theorem FindDirectoryOrCreate_zero_segments (path : string) (w : World) :
  zero_segments path ->
  FindDirectoryOrCreate filen path w
  = (delivered w (Ok (baseFolder w)), client.sent ReqGetUserBaseFolder w).
Proof.
  intros Hzero. rewrite FindDirectoryOrCreate_run.
  destruct (delivered w (Ok (baseFolder w))) as [base|e]; [|reflexivity].
  now apply loop_all_empty.
Qed.

(** ** Nothing is taken away *)

Lemma CreateDirectory_effect (parentUUID name : string) (w : World) :
  baseFolder (snd (CreateDirectory filen parentUUID name w)) = baseFolder w /\
  uploads (snd (CreateDirectory filen parentUUID name w)) = uploads w /\
  entropy (snd (CreateDirectory filen parentUUID name w)) = S (entropy w) /\
  match fst (CreateDirectory filen parentUUID name w) with
  | Ok d =>
      Directory.UUID d = uuidString (entropy w) /\
      exists c,
        EncryptMetadata (S (entropy w)) (nameMetadata name) (CurrentMasterKey filen) = Ok c /\
        folders (snd (CreateDirectory filen parentUUID name w))
          = folders w ++ [newFolder parentUUID c w]
  | Err _ => folders (snd (CreateDirectory filen parentUUID name w)) = folders w
  end.
Proof.
  rewrite CreateDirectory_run.
  destruct (EncryptMetadata _ _ _) as [c|e]; [|repeat split].
  destruct (faults w) as [|[e|] rest]; cbn [fst snd]; repeat split; eauto.
Qed.

Lemma loop_grows (segments : list string) : forall cur w,
  baseFolder (snd (FindDirectoryOrCreate_loop filen segments cur w)) = baseFolder w /\
  uploads (snd (FindDirectoryOrCreate_loop filen segments cur w)) = uploads w /\
  exists created,
    folders (snd (FindDirectoryOrCreate_loop filen segments cur w)) = folders w ++ created /\
    List.length created <= List.length (nonEmpty segments) /\
    map Folder.UUID created = map uuidString (seq (entropy w) (List.length created)).
Proof.
  induction segments as [|segment rest IH]; intros cur w.
  - repeat split. exists []. cbn. rewrite app_nil_r. repeat split. lia.
  - destruct (String.eqb_spec segment EmptyString) as [->|Hne]; [exact (IH cur w)|].
    rewrite (nonEmpty_cons rest Hne), (loop_step filen rest cur w Hne).
    assert (Hstop : forall (r : result string) w',
      baseFolder w' = baseFolder w -> uploads w' = uploads w -> folders w' = folders w ->
      baseFolder (snd (r, w')) = baseFolder w /\ uploads (snd (r, w')) = uploads w /\
      exists created,
        folders (snd (r, w')) = folders w ++ created /\
        List.length created <= List.length (segment :: nonEmpty rest) /\
        map Folder.UUID created = map uuidString (seq (entropy w) (List.length created))).
    { intros r w' Hb Hu Hf. repeat split; try assumption.
      exists []. cbn [snd]. rewrite app_nil_r. repeat split; [exact Hf | simpl; lia]. }
    destruct (delivered w (listing filen w cur)) as [[files directories]|e];
      [|now apply Hstop].
    destruct (findDirectory directories segment) as [d|].
    + destruct (IH (Directory.UUID d) (client.sent (ReqGetDirectoryContent cur) w))
        as (Hb & Hu & created & Hf & Hlen & Huuid).
      repeat split; try assumption.
      exists created. repeat split; try assumption. simpl. lia.
    + pose proof (CreateDirectory_effect cur segment
                    (client.sent (ReqGetDirectoryContent cur) w)) as Heffect.
      destruct (CreateDirectory filen cur segment _) as [[d|e] wb];
        cbn [fst snd] in Heffect.
      * destruct Heffect as (Hb & Hu & He & Hd & c & _ & Hf).
        destruct (IH (Directory.UUID d) wb) as (Hb' & Hu' & created & Hf' & Hlen & Huuid).
        split; [now rewrite Hb'|]. split; [now rewrite Hu'|].
        exists (newFolder cur c (client.sent (ReqGetDirectoryContent cur) w) :: created).
        split; [rewrite Hf', Hf; cbn [client.sent folders]; now rewrite <- app_assoc|].
        split; [simpl; lia|].
        cbn [List.length seq map]. rewrite He in Huuid.
        cbn [client.sent entropy] in Huuid. rewrite Huuid. reflexivity.
      * destruct Heffect as (Hb & Hu & _ & Hf). now apply Hstop.
Qed.

(** X9: [FindDirectoryOrCreate] only adds folders.  Whatever the path, the
    transport and the outcome, also when it fails half way, it leaves the
    root and the files of the drive as they were and the folders that
    were there in place, followed by the ones it created: at most one for
    each non-empty segment of the path, under the identifiers drawn one
    after the other from the random source. *)
Theorem FindDirectoryOrCreate_only_adds (path : string) (w : World) :
  baseFolder (snd (FindDirectoryOrCreate filen path w)) = baseFolder w /\
  uploads (snd (FindDirectoryOrCreate filen path w)) = uploads w /\
  exists created,
    folders (snd (FindDirectoryOrCreate filen path w)) = folders w ++ created /\
    List.length created <= List.length (nonEmpty (strings.Split path slash)) /\
    map Folder.UUID created = map uuidString (seq (entropy w) (List.length created)).
Proof.
  rewrite FindDirectoryOrCreate_run.
  destruct (delivered w (Ok (baseFolder w))) as [base|e].
  - exact (loop_grows (strings.Split path slash) base (client.sent ReqGetUserBaseFolder w)).
  - repeat split. exists []. cbn. rewrite app_nil_r. repeat split. lia.
Qed.


(** ** What was made can be found *)




End Grows.

(* ================================================================== *)
(** * The test for a path without segments *)

Section PathTest.
Local Open Scope string_scope.

Lemma concat_empty_cons (c : ascii) (piece : string) (pieces : list string) :
  String.concat EmptyString (String c piece :: pieces)
  = String c (String.concat EmptyString (piece :: pieces)).
Proof. destruct pieces; reflexivity. Qed.

Lemma Join_Split_without (path : string) :
  strings.Join (strings.Split path slash) EmptyString = without slash path.
Proof.
  unfold strings.Join. induction path as [|c path IH]; [reflexivity|].
  cbn [strings.Split without].
  destruct (Ascii.eqb c slash).
  - destruct (strings.Split path slash) as [|piece pieces] eqn:Hp;
      [now apply Split_not_nil in Hp | exact IH].
  - destruct (strings.Split path slash) as [|piece pieces] eqn:Hp;
      [now apply Split_not_nil in Hp|].
    now rewrite concat_empty_cons, IH.
Qed.

(** X17: the test for the empty path.  What [FindItemUUID], [FindItem] and
    [FindDirectoryOrCreate] measure, the pieces of the path between the
    slashes joined again without a separator, is the path without its
    slashes; so the test [len(...) == 0] holds exactly for the paths that
    consist of slashes only, the empty path among them. *)
Theorem empty_path_test (path : string) :
  strings.Join (strings.Split path slash) EmptyString = without slash path /\
  (Nat.eqb (String.length (strings.Join (strings.Split path slash) EmptyString)) 0 = true
   <-> path = string_of_list_ascii (repeat slash (String.length path))).
Proof.
  split; [apply Join_Split_without|].
  rewrite <- zero_segments_test. apply zero_segments_slashes.
Qed.

End PathTest.

(* ================================================================== *)
(** * The derived key *)

Section DerivedKey.
Local Open Scope string_scope.

Lemma T_block_length (P S : list byte) (iter i : Z) :
  List.length (pbkdf2.T_block sha512.New P S iter i) = 64.
Proof. rewrite T_block_RFC. apply F_length. Qed.

Lemma flat_map_length_all {A B} (f : A -> list B) (n : nat) (l : list A) :
  (forall x, List.length (f x) = n) -> List.length (flat_map f l) = n * List.length l.
Proof.
  intros Hf. induction l as [|x l IH]; simpl; [lia|].
  rewrite length_app, Hf, IH. lia.
Qed.

Lemma blocks_enough (keyLen : Z) :
  (0 <= keyLen)%Z -> Z.to_nat keyLen <= 64 * Z.to_nat ((keyLen + 64 - 1) / 64).
Proof.
  intros Hk.
  pose proof (Z.div_mod (keyLen + 64 - 1) 64 ltac:(lia)) as Hdm.
  pose proof (Z.mod_pos_bound (keyLen + 64 - 1) 64 ltac:(lia)) as Hm.
  assert (0 <= (keyLen + 64 - 1) / 64)%Z by (apply Z.div_pos; lia).
  lia.
Qed.

Lemma Key_length (P S : list byte) (iter keyLen : Z) :
  (0 <= keyLen)%Z ->
  List.length (pbkdf2.Key P S iter keyLen sha512.New) = Z.to_nat keyLen.
Proof.
  intros Hk. unfold pbkdf2.Key. change (Z.of_nat (Size sha512.New)) with 64%Z.
  rewrite length_firstn,
    (@flat_map_length_all _ _ _ 64) by (intros x; apply T_block_length).
  rewrite length_seq. pose proof (blocks_enough Hk). lia.
Qed.


Lemma T_block_few_iterations (h : Hash) (P S : list byte) (iter i : Z) :
  (iter <= 1)%Z ->
  pbkdf2.T_block h P S iter i = hmac.Sum_ h P (S ++ sha512.be_bytes 4 i).
Proof.
  intros Hiter. unfold pbkdf2.T_block.
  replace (Z.to_N (iter - 1)) with 0%N by (destruct (iter - 1)%Z eqn:E; simpl; lia).
  reflexivity.
Qed.

(** X14: fewer than two iterations are one.  With an iteration count of
    one, zero or less, [DeriveKeyFromPassword] returns what it returns for
    one iteration: each block of the key is a single HMAC-SHA-512 of the
    salt and the block number under the password, and nothing is
    stretched. *)
Theorem DeriveKeyFromPassword_few_iterations
        (password salt : string) (iterations bitLength : Z) :
  (iterations <= 1)%Z ->
  crypto.DeriveKeyFromPassword password salt iterations bitLength
  = crypto.DeriveKeyFromPassword password salt 1 bitLength /\
  crypto.DeriveKeyFromPassword password salt iterations 512
  = hmac.Sum_ sha512.New (bytes_of_string password)
              (bytes_of_string salt ++ [x00; x00; x00; x01]).
Proof.
  intros Hiter.
  assert (Hblocks : forall keyLen,
    pbkdf2.Key (bytes_of_string password) (bytes_of_string salt) iterations keyLen sha512.New
    = firstn (Z.to_nat keyLen)
        (flat_map (fun block => hmac.Sum_ sha512.New (bytes_of_string password)
                     (bytes_of_string salt ++ sha512.be_bytes 4 (Z.of_nat block)))
           (seq 1 (Z.to_nat ((keyLen + 64 - 1) / 64))))).
  { intros keyLen. unfold pbkdf2.Key. change (Z.of_nat (Size sha512.New)) with 64%Z.
    f_equal. apply flat_map_ext.
    intros block. now apply T_block_few_iterations. }
  split.
  - unfold crypto.DeriveKeyFromPassword. rewrite Hblocks.
    unfold pbkdf2.Key. change (Z.of_nat (Size sha512.New)) with 64%Z.
    f_equal;
      try (apply flat_map_ext; intros block; symmetry; apply T_block_few_iterations; lia).
  - unfold crypto.DeriveKeyFromPassword. rewrite Hblocks.
    change (Z.quot 512 8) with 64%Z. change ((64 + 64 - 1) / 64)%Z with 1%Z.
    change (Z.to_nat 1) with 1. cbn [seq flat_map]. rewrite app_nil_r.
    change (sha512.be_bytes 4 (Z.of_nat 1)) with [x00; x00; x00; x01].
    apply firstn_all2. rewrite hmac_sha512_length. change (Z.to_nat 64) with 64. lia.
Qed.

Lemma Key_prefix (P S : list byte) (iter short long : Z) :
  (0 <= short <= long)%Z ->
  pbkdf2.Key P S iter short sha512.New
  = firstn (Z.to_nat short) (pbkdf2.Key P S iter long sha512.New).
Proof.
  intros Hlen. unfold pbkdf2.Key. change (Z.of_nat (Size sha512.New)) with 64%Z.
  rewrite firstn_firstn, Nat.min_l by lia.
  set (T := fun block => pbkdf2.T_block sha512.New P S iter (Z.of_nat block)).
  assert (HT : forall x, List.length (T x) = 64)
    by (intros x; subst T; cbv beta; apply T_block_length).
  clearbody T.
  set (n1 := Z.to_nat ((short + 64 - 1) / 64)).
  set (n2 := Z.to_nat ((long + 64 - 1) / 64)).
  assert (Hn : n1 <= n2).
  { subst n1 n2. apply Z2Nat.inj_le; [apply Z.div_pos; lia | apply Z.div_pos; lia |].
    apply Z.div_le_mono; lia. }
  replace n2 with (n1 + (n2 - n1)) by lia.
  rewrite seq_app, flat_map_app, firstn_app.
  replace (Z.to_nat short - List.length (flat_map T (seq 1 n1))) with 0.
  - now rewrite app_nil_r.
  - rewrite (flat_map_length_all T (seq 1 n1) HT), length_seq.
    pose proof (@blocks_enough short ltac:(lia)). subst n1. lia.
Qed.

Lemma substring_EncodeToString (src : list byte) : forall n,
  substring 0 (2 * n) (hex.EncodeToString src) = hex.EncodeToString (firstn n src).
Proof.
  induction src as [|b src IH]; intros [|n]; try reflexivity.
  replace (2 * S n) with (S (S (2 * n))) by lia.
  cbn [hex.EncodeToString firstn substring]. now rewrite IH.
Qed.

Lemma digit_isHexDigit (b : byte) :
  isHexDigit (hex.digit (N.shiftr (Byte.to_N b) 4)) = true /\
  isHexDigit (hex.digit (N.land (Byte.to_N b) 15)) = true.
Proof. destruct b; split; vm_compute; reflexivity. Qed.

Lemma EncodeToString_isHexDigit (src : list byte) :
  Forall (fun c => isHexDigit c = true) (list_ascii_of_string (hex.EncodeToString src)).
Proof.
  induction src as [|b src IH]; [constructor|].
  destruct (digit_isHexDigit b) as [Hhi Hlo].
  cbn [hex.EncodeToString list_ascii_of_string]. now repeat constructor.
Qed.

Lemma DeriveKeyFromPassword_512_length (password salt : string) (iterations : Z) :
  List.length (crypto.DeriveKeyFromPassword password salt iterations 512) = 64.
Proof.
  unfold crypto.DeriveKeyFromPassword. change (Z.quot 512 8) with 64%Z.
  rewrite Key_length by lia. reflexivity.
Qed.

Lemma GeneratePasswordAndMasterKey_fst (rawPassword salt : string) :
  fst (crypto.GeneratePasswordAndMasterKey rawPassword salt)
  = hex.EncodeToString
      (firstn 32 (crypto.DeriveKeyFromPassword rawPassword salt 200000 512)).
Proof.
  pose proof (DeriveKeyFromPassword_512_length rawPassword salt 200000) as Hlen.
  unfold crypto.GeneratePasswordAndMasterKey. cbn [fst].
  set (stretched := crypto.DeriveKeyFromPassword rawPassword salt 200000 512) in *.
  clearbody stretched.
  rewrite EncodeToString_length, Hlen. change (2 * 64 / 2) with (2 * 32).
  apply substring_EncodeToString.
Qed.

Lemma GeneratePasswordAndMasterKey_snd (rawPassword salt : string) :
  exists digest,
    snd (crypto.GeneratePasswordAndMasterKey rawPassword salt) = hex.EncodeToString digest.
Proof.
  unfold crypto.GeneratePasswordAndMasterKey. cbn [snd].
  eexists. apply Sprintf_032x_wide.
  unfold crypto.runSHA521, crypto.RunSHA521. cbn [Sum sha512.New].
  rewrite Sum512_length. lia.
Qed.

(** X15: the master key is a PBKDF2 key of its own.  The first result of
    [GeneratePasswordAndMasterKey] is the hex form of the first 32 bytes of
    the 64 that are derived, and these are the 256-bit key that
    [DeriveKeyFromPassword] derives from the same password and salt with
    the same 200,000 iterations. *)
Theorem GeneratePasswordAndMasterKey_master_key (rawPassword salt : string) :
  fst (crypto.GeneratePasswordAndMasterKey rawPassword salt)
  = hex.EncodeToString (crypto.DeriveKeyFromPassword rawPassword salt 200000 256) /\
  crypto.DeriveKeyFromPassword rawPassword salt 200000 256
  = firstn 32 (crypto.DeriveKeyFromPassword rawPassword salt 200000 512).
Proof.
  assert (Hprefix : crypto.DeriveKeyFromPassword rawPassword salt 200000 256
                    = firstn 32 (crypto.DeriveKeyFromPassword rawPassword salt 200000 512)).
  { unfold crypto.DeriveKeyFromPassword.
    change (Z.quot 256 8) with 32%Z. change (Z.quot 512 8) with 64%Z.
    pose proof (@Key_prefix (bytes_of_string rawPassword) (bytes_of_string salt)
                  200000 32 64 ltac:(lia)) as Hp.
    change (Z.to_nat 32) with 32 in Hp. exact Hp. }
  split; [|exact Hprefix].
  rewrite Hprefix. apply GeneratePasswordAndMasterKey_fst.
Qed.

(** X16: both results of [GeneratePasswordAndMasterKey] are written in
    lower-case hexadecimal digits, 0 to 9 and a to f, and nothing else. *)
Theorem GeneratePasswordAndMasterKey_hex_digits (rawPassword salt : string) :
  Forall (fun c => isHexDigit c = true)
         (list_ascii_of_string (fst (crypto.GeneratePasswordAndMasterKey rawPassword salt))) /\
  Forall (fun c => isHexDigit c = true)
         (list_ascii_of_string (snd (crypto.GeneratePasswordAndMasterKey rawPassword salt))).
Proof.
  split.
  - rewrite GeneratePasswordAndMasterKey_fst. apply EncodeToString_isHexDigit.
  - destruct (GeneratePasswordAndMasterKey_snd rawPassword salt) as [digest ->].
    apply EncodeToString_isHexDigit.
Qed.

End DerivedKey.

(* ================================================================== *)
(** * The name of a directory, there and back *)

Section NameMetadata.
Local Open Scope string_scope.

(** X18: the metadata that [CreateDirectory] writes for a name is read
    back by [ReadDirectory] as that name.  For every name of bytes below
    0x80, quotes, backslashes, control characters and angle brackets among
    them, the JSON text marshalled for the name is decoded without error
    by the decoder of directory names, and the name it yields is the name
    that went in. *)
Theorem name_metadata_roundtrip (name : string) :
  asciiName name ->
  exists decoded,
    json.Unmarshal (nameMetadata name) directoryName = (decoded, None) /\
    json.getString decoded "name" = name.
Proof.
  intros Hascii. pose proof (@name_roundtrip_ascii name Hascii) as Hrt.
  unfold name_roundtrip in Hrt. rewrite Hrt.
  eexists. split; reflexivity.
Qed.

End NameMetadata.

(* ================================================================== *)
(** * Round trips *)

Section RoundTrips.
Context `{Externals}.
Variable filen : Filen.
Local Open Scope string_scope.
Local Open Scope list_scope.

Lemma FindItem_loop_nothing_there (requireDirectory : bool) (segments : list string) :
  forall len segmentIdx cur w,
    faults w = [] ->
    listing filen w cur = Ok ([], []) ->
    ~ Forall (fun segment => segment = EmptyString) segments ->
    FindItem_loop filen requireDirectory len segmentIdx segments cur w
    = (Ok (None, None), client.sent (ReqGetDirectoryContent cur) w).
Proof.
  induction segments as [|segment rest IH]; intros len segmentIdx cur w Hfa Hl Hsome.
  - contradiction Hsome. constructor.
  - destruct (String.eqb_spec segment EmptyString) as [->|Hne].
    + cbn [FindItem_loop]. rewrite String.eqb_refl.
      apply IH; try assumption.
      intros Hrest. apply Hsome. now constructor.
    + rewrite (FindItem_loop_step filen _ _ _ rest cur w Hne),
        (delivered_reliable w _ Hfa), Hl.
      now destruct requireDirectory.
Qed.

(** X19: on a drive whose root has no children, [FindItem] finds nothing
    and says so without error: for every path with at least one non-empty
    segment, over a reliable transport, it fetches the root, lists it once
    and returns neither file nor directory. *)
Theorem FindItem_nothing_in_the_root (path : string) (requireDirectory : bool) (w : World) :
  faults w = [] ->
  Forall (fun f => Folder.Parent f <> baseFolder w) (folders w) ->
  Forall (fun u => Upload.Parent u <> baseFolder w) (uploads w) ->
  ~ zero_segments path ->
  FindItem filen path requireDirectory w
  = (Ok (None, None),
     client.sent (ReqGetDirectoryContent (baseFolder w))
                 (client.sent ReqGetUserBaseFolder w)).
Proof.
  intros Hfa Hfolders Huploads Hsome.
  rewrite FindItem_run, (delivered_reliable w _ Hfa).
  replace (Nat.eqb _ 0) with false
    by (symmetry; apply Bool.not_true_iff_false; now rewrite <- zero_segments_test).
  apply FindItem_loop_nothing_there.
  - now apply sent_reliable.
  - exact (@listing_fresh _ filen w (baseFolder w) Hfolders Huploads).
  - exact Hsome.
Qed.

Lemma loop_requests (segments : list string) : forall cur w,
  exists sent,
    requests (snd (FindDirectoryOrCreate_loop filen segments cur w)) = requests w ++ sent /\
    Forall (fun r => is_listing r \/ is_create r) sent /\
    List.length sent <= 2 * List.length (nonEmpty segments).
Proof.
  induction segments as [|segment rest IH]; intros cur w.
  - exists []. cbn. rewrite app_nil_r. repeat split; [constructor | lia].
  - destruct (String.eqb_spec segment EmptyString) as [->|Hne]; [exact (IH cur w)|].
    rewrite (nonEmpty_cons rest Hne), (loop_step filen rest cur w Hne).
    cbn [List.length].
    destruct (delivered w (listing filen w cur)) as [[files directories]|e].
    + destruct (findDirectory directories segment) as [d|].
      * destruct (IH (Directory.UUID d) (client.sent (ReqGetDirectoryContent cur) w))
          as (rs & Hreq & Hkinds & Hlen).
        exists (ReqGetDirectoryContent cur :: rs). split; [|split].
        -- rewrite Hreq. cbn [client.sent requests]. now rewrite <- app_assoc.
        -- constructor; [left; exact I | exact Hkinds].
        -- simpl. lia.
      * rewrite CreateDirectory_run.
        destruct (EncryptMetadata _ _ _) as [c|e].
        -- set (wa := client.sent (ReqGetDirectoryContent cur) w).
           destruct (faults wa) as [|[e|] fs] eqn:Hfaults;
             cbv beta iota; cbn [Directory.UUID].
           ++ destruct (IH (uuidString (entropy wa))
                           (stored (newFolder cur c wa)
                              (client.sent (createRequest cur segment c wa) (drawn wa))))
                as (rs & Hreq & Hkinds & Hlen).
              exists (ReqGetDirectoryContent cur :: createRequest cur segment c wa :: rs).
              split; [|split].
              ** rewrite Hreq. cbn [stored client.sent drawn requests wa].
                 now rewrite <- !app_assoc.
              ** constructor; [left; exact I|]. constructor; [right; exact I | exact Hkinds].
              ** simpl. lia.
           ++ exists [ReqGetDirectoryContent cur; createRequest cur segment c wa].
              split; [|split].
              ** cbn [snd client.sent drawn requests wa]. now rewrite <- !app_assoc.
              ** constructor; [left; exact I|]. constructor; [right; exact I | constructor].
              ** simpl. lia.
           ++ destruct (IH (uuidString (entropy wa))
                           (stored (newFolder cur c wa)
                              (client.sent (createRequest cur segment c wa) (drawn wa))))
                as (rs & Hreq & Hkinds & Hlen).
              exists (ReqGetDirectoryContent cur :: createRequest cur segment c wa :: rs).
              split; [|split].
              ** rewrite Hreq. cbn [stored client.sent drawn requests wa].
                 now rewrite <- !app_assoc.
              ** constructor; [left; exact I|]. constructor; [right; exact I | exact Hkinds].
              ** simpl. lia.
        -- exists [ReqGetDirectoryContent cur]. split; [reflexivity|].
           split; [constructor; [left; exact I | constructor] | simpl; lia].
    + exists [ReqGetDirectoryContent cur]. split; [reflexivity|].
      split; [constructor; [left; exact I | constructor] | simpl; lia].
Qed.

(** X20: the round trips of [FindDirectoryOrCreate].  Whatever the path,
    the transport and the outcome, it sends the fetch of the root folder
    and after it listing and creation requests only, at most two for each
    non-empty segment of the path. *)
Theorem FindDirectoryOrCreate_round_trips (path : string) (w : World) :
  exists sent,
    requests (snd (FindDirectoryOrCreate filen path w))
      = requests w ++ ReqGetUserBaseFolder :: sent /\
    Forall (fun r => is_listing r \/ is_create r) sent /\
    List.length sent <= 2 * List.length (nonEmpty (strings.Split path slash)).
Proof.
  rewrite FindDirectoryOrCreate_run.
  destruct (delivered w (Ok (baseFolder w))) as [base|e].
  - destruct (loop_requests (strings.Split path slash) base
                            (client.sent ReqGetUserBaseFolder w))
      as (rs & Hreq & Hkinds & Hlen).
    exists rs. rewrite Hreq. cbn [client.sent requests].
    rewrite <- app_assoc. auto.
  - exists []. repeat split; [constructor | simpl; lia].
Qed.

End RoundTrips.

(* ================================================================== *)
(** * Trying again *)

Section Retry.
Context `{Externals}.
Variable filen : Filen.
Local Open Scope string_scope.
Local Open Scope list_scope.





End Retry.

(* ================================================================== *)
(** * The root fetch, and the identifier returned *)

Section RootAndIdentifier.
Context `{Externals}.
Variable filen : Filen.
Local Open Scope string_scope.
Local Open Scope list_scope.

(** X22: when the fetch of the root folder fails, nothing else is tried.
    If the transport fails the next request with the error [e], then
    [FindItem], [FindItemUUID] and [FindDirectoryOrCreate] return [e],
    whatever the path, an empty one included, and have sent that one
    request only. *)
Theorem root_fetch_failure (path : string) (requireDirectory : bool) (w : World)
        (e : error) (rest : list (option error)) :
  faults w = Some e :: rest ->
  FindItem filen path requireDirectory w = (Err e, client.sent ReqGetUserBaseFolder w) /\
  FindItemUUID filen path requireDirectory w = (Err e, client.sent ReqGetUserBaseFolder w) /\
  FindDirectoryOrCreate filen path w = (Err e, client.sent ReqGetUserBaseFolder w).
Proof.
  intros Hfaults.
  assert (Hbase : delivered w (Ok (baseFolder w)) = Err e)
    by (unfold delivered; now rewrite Hfaults).
  assert (Hitem : FindItem filen path requireDirectory w
                  = (Err e, client.sent ReqGetUserBaseFolder w))
    by (now rewrite FindItem_run, Hbase).
  split; [exact Hitem|]. split.
  - unfold FindItemUUID. destruct (Nat.eqb _ 0).
    + unfold bind. now rewrite GetBaseFolderUUID_run, Hbase.
    + unfold bind. now rewrite Hitem.
  - now rewrite FindDirectoryOrCreate_run, Hbase.
Qed.

(** X23: the identifier that [FindItemUUID] returns names something.  It
    is the empty string (nothing found), or the identifier of the root (on
    a path without segments), or the identifier of an upload of the drive
    (only when [requireDirectory] is false), or the identifier of a folder
    of the drive. *)
Theorem FindItemUUID_names_an_entry (path : string) (requireDirectory : bool)
        (w w' : World) (u : string) :
  FindItemUUID filen path requireDirectory w = (Ok u, w') ->
  u = EmptyString \/
  (zero_segments path /\ u = baseFolder w) \/
  (requireDirectory = false /\ exists file, In file (uploads w) /\ Upload.UUID file = u) \/
  (exists directory, In directory (folders w) /\ Folder.UUID directory = u).
Proof.
  unfold FindItemUUID. destruct (Nat.eqb _ 0) eqn:Htest.
  - apply zero_segments_test in Htest.
    unfold bind. rewrite GetBaseFolderUUID_run.
    destruct (delivered w (Ok (baseFolder w))) as [base|e] eqn:Hbase; [|discriminate].
    apply delivered_Ok in Hbase. injection Hbase as <-.
    intros [= <- _]. right. left. auto.
  - unfold bind. rewrite FindItem_run, Htest.
    destruct (delivered w (Ok (baseFolder w))) as [base|e]; [|discriminate].
    destruct (FindItem_loop filen requireDirectory _ 0 _ base _) as [[found|e] w1] eqn:Hloop;
      [|discriminate].
    pose proof (@FindItem_loop_sound _ filen requireDirectory (strings.Split path slash)
                  _ 0 base (client.sent ReqGetUserBaseFolder w) found w1 eq_refl Hloop)
      as Hsound.
    destruct found as [[file|] [directory|]]; cbn [sound] in Hsound;
      intros [= <- _].
    + contradiction.
    + destruct Hsound as (Hrd & _ & up & Hup & Hdec).
      right. right. left. split; [exact Hrd|]. exists up. split; [exact Hup|].
      destruct (transformFile_Ok filen up Hdec) as (_ & _ & _ & Huuid & _).
      now rewrite Huuid.
    + destruct Hsound as (_ & _ & fo & Hfo & Hdec).
      right. right. right. exists fo. split; [exact Hfo|].
      destruct (transformDirectory_Ok filen fo Hdec) as (_ & _ & _ & Huuid & _).
      now rewrite Huuid.
    + now left.
Qed.

End RootAndIdentifier.

(* ================================================================== *)
(** * The further properties on the fixture *)

Section FurtherOnTheDrive.
Import Fixture.
Local Open Scope string_scope.
Local Open Scope list_scope.

Lemma FindItem_result_sound_witness :
  exists d, fst (FindItem session "a/b" true drive) = Ok (None, Some d) /\
            Directory.Name d = last (strings.Split "a/b" slash) EmptyString /\
            Directory.Name d <> EmptyString.
Proof.
  pose (d := {| Directory.UUID := "dir-b"; Directory.Name := "b";
                Directory.ParentUUID := "dir-a"; Directory.Color := "<none>";
                Directory.Created := 1700000000; Directory.Favorited := false |}).
  assert (Hrun : FindItem session "a/b" true drive =
                 (Ok (None, Some d), snd (FindItem session "a/b" true drive))).
  { rewrite (surjective_pairing (FindItem session "a/b" true drive)) at 1.
    apply f_equal2; [vm_compute; reflexivity | reflexivity]. }
  destruct (@FindItem_result_sound tagged session "a/b" true drive _ None (Some d) Hrun)
    as (_ & _ & _ & Hdir).
  destruct (Hdir d eq_refl) as (Hname & Hnamed & _).
  exists d. split; [rewrite Hrun; reflexivity|]. split; [exact Hname | exact Hnamed].
Defined.

Lemma FindItem_not_found_witness :
  fst (FindItem session "zzz/q" false drive) = Ok (None, None).
Proof.
  erewrite (@FindItem_not_found tagged session "zzz/q" false drive _ _ _
              "root" "root" "zzz" [] ["q"]).
  - reflexivity.
  - reflexivity.
  - reflexivity.
  - discriminate.
  - apply descends_nil.
  - vm_compute. reflexivity.
  - intros _. vm_compute. reflexivity.
  - vm_compute. reflexivity.
Defined.

Lemma FindItem_trailing_slash_unreachable_witness :
  fst (FindItem session ("a/b" ++ String slash EmptyString) true drive)
  = Err (errorString "unreachable").
Proof.
  erewrite (@FindItem_trailing_slash_unreachable tagged session "a/b" true drive _ _ "root" _).
  - reflexivity.
  - reflexivity.
  - unfold zero_segments. simpl. intros Hzero. inversion Hzero. discriminate.
  - eapply descends_into;
      [discriminate | vm_compute; reflexivity | discriminate | vm_compute; reflexivity |].
    eapply descends_into;
      [discriminate | vm_compute; reflexivity | discriminate | vm_compute; reflexivity |].
    apply descends_nil.
Defined.

Lemma FindItem_slashes_witness :
  FindItem session "/a//b" false drive = FindItem session "a/b" false drive.
Proof.
  apply (@FindItem_slashes tagged session "/a//b" "a/b" false drive).
  - reflexivity.
  - discriminate.
  - reflexivity.
Defined.

Lemma FindItem_requireDirectory_without_files_witness :
  FindItem session "a/x" false drive = FindItem session "a/x" true drive.
Proof.
  apply (@FindItem_requireDirectory_without_files tagged session "a/x" drive).
  intros u file [<-|[<-|[]]] Hdec; vm_compute in Hdec; injection Hdec as <-;
    simpl; intros [Hin|[Hin|[]]]; discriminate Hin.
Defined.

Lemma FindDirectoryOrCreate_slashes_witness :
  FindDirectoryOrCreate session "/x//y/" emptyDrive
  = FindDirectoryOrCreate session "x/y" emptyDrive.
Proof.
  apply (@FindDirectoryOrCreate_slashes tagged session "/x//y/" "x/y" emptyDrive).
  reflexivity.
Defined.

Lemma FindDirectoryOrCreate_zero_segments_witness :
  FindDirectoryOrCreate session "//" drive
  = (Ok "root", client.sent ReqGetUserBaseFolder drive).
Proof.
  rewrite (@FindDirectoryOrCreate_zero_segments tagged session "//" drive).
  - reflexivity.
  - unfold zero_segments. simpl. repeat constructor.
Defined.

(** [FindDirectoryOrCreate] is not undone when it fails: the second
    creation is lost by the transport, and the folder made by the first
    stays. *)
Example FindDirectoryOrCreate_fails_half_way :
  fst (FindDirectoryOrCreate session "x/y/z" flakyDrive) = Err (TransportError "timeout") /\
  map Folder.UUID (folders (snd (FindDirectoryOrCreate session "x/y/z" flakyDrive)))
  = ["uuid-0"] /\
  List.length (requests (snd (FindDirectoryOrCreate session "x/y/z" flakyDrive))) = 5.
Proof. repeat split; vm_compute; reflexivity. Qed.





Lemma DeriveKeyFromPassword_few_iterations_witness :
  crypto.DeriveKeyFromPassword "password" "salt" 0 512
  = crypto.DeriveKeyFromPassword "password" "salt" 1 512.
Proof.
  apply (@DeriveKeyFromPassword_few_iterations "password" "salt" 0 512). lia.
Defined.

Lemma name_metadata_roundtrip_witness :
  exists decoded,
    json.Unmarshal (nameMetadata "a<b") directoryName = (decoded, None) /\
    json.getString decoded "name" = "a<b".
Proof.
  apply (@name_metadata_roundtrip "a<b").
  unfold asciiName. simpl. repeat constructor.
Defined.

Lemma FindItem_nothing_in_the_root_witness :
  fst (FindItem session "x/y" false emptyDrive) = Ok (None, None).
Proof.
  rewrite (@FindItem_nothing_in_the_root tagged session "x/y" false emptyDrive).
  - reflexivity.
  - reflexivity.
  - constructor.
  - constructor.
  - unfold zero_segments. simpl. intros Hzero. inversion Hzero. discriminate.
Defined.


(** The run that failed half way, tried again: the folder of the first run
    is found, the two that were missing are made, under the identifiers
    drawn next (the one drawn for the lost request is not used again). *)
Example FindDirectoryOrCreate_tried_again :
  fst (FindDirectoryOrCreate session "x/y/z"
         (repaired (snd (FindDirectoryOrCreate session "x/y/z" flakyDrive))))
  = Ok "uuid-3" /\
  map Folder.UUID
      (folders (snd (FindDirectoryOrCreate session "x/y/z"
                       (repaired (snd (FindDirectoryOrCreate session "x/y/z" flakyDrive))))))
  = ["uuid-0"; "uuid-2"; "uuid-3"].
Proof. split; vm_compute; reflexivity. Qed.

Lemma root_fetch_failure_witness :
  fst (FindItem session EmptyString false offlineDrive)
    = Err (TransportError "connection refused") /\
  requests (snd (FindDirectoryOrCreate session "x/y" offlineDrive)) = [ReqGetUserBaseFolder].
Proof.
  destruct (@root_fetch_failure tagged session EmptyString false offlineDrive
              (TransportError "connection refused") [] eq_refl) as (Hitem & _ & _).
  destruct (@root_fetch_failure tagged session "x/y" false offlineDrive
              (TransportError "connection refused") [] eq_refl) as (_ & _ & Hmake).
  rewrite Hitem, Hmake. split; reflexivity.
Defined.

Lemma FindItemUUID_names_an_entry_witness :
  exists file, In file (uploads drive) /\ Upload.UUID file = "file-b".
Proof.
  assert (Hrun : FindItemUUID session "a/b" false drive =
                 (Ok "file-b", snd (FindItemUUID session "a/b" false drive))).
  { rewrite (surjective_pairing (FindItemUUID session "a/b" false drive)) at 1.
    apply f_equal2; [vm_compute; reflexivity | reflexivity]. }
  destruct (@FindItemUUID_names_an_entry tagged session "a/b" false drive _ "file-b" Hrun)
    as [Hnone | [[_ Hroot] | [[_ Hfile] | [directory [Hin Huuid]]]]].
  - discriminate Hnone.
  - discriminate Hroot.
  - exact Hfile.
  - exfalso. destruct Hin as [<-|[<-|[]]]; discriminate Huuid.
Defined.

End FurtherOnTheDrive.
